(** * Sender monitor of the probabilistic micropayment package (pm)

    A shallow embedding of [pm/sendermonitor.go]: the sender registry,
    the max-float accounting ([AddFloat], [SubFloat], [MaxFloat],
    [maxFloat], [reserveAlloc]), the lazy cache ([ensureCache], [cache])
    and the TTL sweep ([cleanup]).

    Modelling choices.
    - Addresses are integers (the 20-byte [ethcommon.Address] is opaque
      to the monitor); [*big.Int] values are [Z].
    - The collaborators [SenderManager] and [RoundsManager] are type
      classes over their own state, so a stub or a caching implementation
      can be plugged in; the [ErrorMonitor], the ticket queues and the
      [done] channels are observed through the list of [event]s a call
      produces.
    - [unixNow()] is the clock reading [now] passed to each call (the tests
      stub it with [setTime]); within one call the clock does not move.
    - A Go nil-pointer dereference is the outcome [Panic]; the state
      changes made before it are kept, as the deferred unlock keeps them. *)

From stdpp Require Import base gmap list strings.
From Stdlib Require Import ZArith Lia.
Open Scope Z_scope.

Abbreviation Address := Z.

(** Go's [error] values are compared by their message. *)
Abbreviation error := string.

(** Outcome of a Go call returning [(T, error)]; [Panic] is a runtime
    panic (nil dereference). *)
Inductive res (A : Type) : Type :=
| Ok (v : A)
| Err (e : error)
| Panic.
Arguments Ok {A} v.
Arguments Err {A} e.
Arguments Panic {A}.

Definition res_map {A B} (f : A -> B) (r : res A) : res B :=
  match r with
  | Ok v => Ok (f v)
  | Err e => Err e
  | Panic => Panic
  end.

(** [ReserveState] and [SenderInfo] (pm/broker.go). *)
Inductive ReserveState := NotFrozen | Frozen | Thawed.

Record SenderInfo := {
  Deposit : Z;
  WithdrawBlock : Z;
  Reserve : Z;
  ReserveStateOf : ReserveState;
  ThawRound : Z
}.

(** A signed ticket; only the nonce and the face value matter here. *)
Record SignedTicket := {
  SenderNonce : Z;
  FaceValue : Z
}.

(** [big.Int.Div]: Euclidean division (the remainder is non-negative). *)
Definition bigDiv (x y : Z) : Z :=
  if 0 <? y then x / y else - (x / (- y)).

(** The [SenderManager] interface (pm/broker.go), over its own state [SM]:
    both reads return a possibly nil pointer and an error. *)
Class SenderManager (SM : Type) := {
  GetSenderInfo : SM -> Address -> SM * (option SenderInfo * option error);
  ClaimedReserve : SM -> Address -> Address -> SM * (option Z * option error);
  Clear : SM -> Address -> SM
}.

(** The part of the [RoundsManager] interface the monitor uses. *)
Class RoundsManager (RM : Type) := {
  GetTranscoderPoolSize : RM -> Z
}.

(** Observable side effects of a call: on the ticket queues
    ([newTicketQueue]/[Start], [Add], [SignalMaxFloat]), on the
    [ErrorMonitor] ([ClearErrCount]), on the [done] channels and on the
    sender manager ([Clear]). Queues and [done] channels are named by the
    handle [cache] allocates. *)
Inductive event :=
| EvQueueStart (q : nat)
| EvQueueAdd (q : nat) (t : SignedTicket)
| EvSignalMaxFloat (q : nat) (mf : Z)
| EvClearErrCount (a : Address)
| EvDone (d : nat)
| EvSmgrClear (a : Address).

(** [remoteSender] *)
Record remoteSender := {
  pendingAmount : Z;
  queue : nat;
  done : nat;
  lastAccess : Z
}.

(** [senderMonitor]: the fields the accounting reads ([cleanupInterval],
    the lock, [broker], [redeemable] and [quit] are not needed);
    [nextId] names the next queue/[done] pair [cache] creates. *)
Record senderMonitor (SM RM : Type) := {
  claimant : Address;
  ttl : Z;
  senders : gmap Z remoteSender;
  smgr : SM;
  rm : RM;
  nextId : nat
}.
Arguments claimant {SM RM} _.
Arguments ttl {SM RM} _.
Arguments senders {SM RM} _.
Arguments smgr {SM RM} _.
Arguments rm {SM RM} _.
Arguments nextId {SM RM} _.

Definition errInsufficientPending : error :=
  "cannot subtract from insufficient pendingAmount".

Section Monitor.
Context {SM RM : Type} `{SenderManager SM} `{RoundsManager RM}.
Implicit Types (sm : senderMonitor SM RM).

Definition set_senders (sm : senderMonitor SM RM) (m : gmap Z remoteSender)
  : senderMonitor SM RM :=
  {| claimant := claimant sm; ttl := ttl sm; senders := m; smgr := smgr sm;
     rm := rm sm; nextId := nextId sm |}.

Definition set_smgr (sm : senderMonitor SM RM) (s : SM) : senderMonitor SM RM :=
  {| claimant := claimant sm; ttl := ttl sm; senders := senders sm; smgr := s;
     rm := rm sm; nextId := nextId sm |}.

Definition set_pending (p : Z) (rs : remoteSender) : remoteSender :=
  {| pendingAmount := p; queue := queue rs; done := done rs;
     lastAccess := lastAccess rs |}.

Definition set_lastAccess (t : Z) (rs : remoteSender) : remoteSender :=
  {| pendingAmount := pendingAmount rs; queue := queue rs; done := done rs;
     lastAccess := t |}.

(** [reserveAlloc]: the error of [ClaimedReserve] is bound and not
    inspected; a nil [info] or [claimed] is dereferenced only when the
    pool size is not zero. *)
Definition reserveAlloc (sm : senderMonitor SM RM) (addr : Address)
  : senderMonitor SM RM * res Z :=
  let '(s1, (info, err)) := GetSenderInfo (smgr sm) addr in
  match err with
  | Some e => (set_smgr sm s1, Err e)
  | None =>
      let '(s2, (claimed, _err)) := ClaimedReserve s1 addr (claimant sm) in
      let poolSize := GetTranscoderPoolSize (rm sm) in
      if Z.eqb poolSize 0 then (set_smgr sm s2, Ok 0)
      else match info, claimed with
           | Some i, Some c => (set_smgr sm s2, Ok (bigDiv (Reserve i) poolSize - c))
           | _, _ => (set_smgr sm s2, Panic)
           end
  end.

(** [maxFloat]: [reserveAlloc - pendingAmount]. *)
Definition maxFloat (sm : senderMonitor SM RM) (addr : Address)
  : senderMonitor SM RM * res Z :=
  let '(sm1, ra) := reserveAlloc sm addr in
  match ra with
  | Err e => (sm1, Err e)
  | Panic => (sm1, Panic)
  | Ok r =>
      match senders sm1 !! addr with
      | Some rs => (sm1, Ok (r - pendingAmount rs))
      | None => (sm1, Panic)
      end
  end.

(** [cache]: a new queue (started, with its consumer goroutine), a new
    [done] channel and a zero [pendingAmount]. *)
Definition cache (sm : senderMonitor SM RM) (addr : Address) (now : Z)
  : senderMonitor SM RM * list event :=
  let id := nextId sm in
  let rs := {| pendingAmount := 0; queue := id; done := id; lastAccess := now |} in
  ({| claimant := claimant sm; ttl := ttl sm;
      senders := <[addr := rs]> (senders sm); smgr := smgr sm; rm := rm sm;
      nextId := S id |},
   [EvQueueStart id]).

(** [ensureCache] *)
Definition ensureCache (sm : senderMonitor SM RM) (addr : Address) (now : Z)
  : senderMonitor SM RM * list event :=
  let '(sm1, evs) :=
    match senders sm !! addr with
    | None => cache sm addr now
    | Some _ => (sm, [])
    end in
  (set_senders sm1 (alter (set_lastAccess now) addr (senders sm1)), evs).

(** [AddFloat]: the guard, the decrease of [pendingAmount], [ClearErrCount],
    then the max float is signalled to the sender's queue; an error of
    [maxFloat] is returned with the decrease kept. *)
Definition AddFloat (sm : senderMonitor SM RM) (addr : Address) (amount : Z)
    (now : Z) : senderMonitor SM RM * list event * res unit :=
  let '(sm1, ev1) := ensureCache sm addr now in
  match senders sm1 !! addr with
  | None => (sm1, ev1, Panic)
  | Some rs =>
      if pendingAmount rs <? amount then (sm1, ev1, Err errInsufficientPending)
      else
        let sm2 := set_senders sm1
                     (alter (set_pending (pendingAmount rs - amount)) addr
                        (senders sm1)) in
        let ev2 := ev1 ++ [EvClearErrCount addr] in
        let '(sm3, mf) := maxFloat sm2 addr in
        match mf with
        | Err e => (sm3, ev2, Err e)
        | Panic => (sm3, ev2, Panic)
        | Ok v =>
            match senders sm3 !! addr with
            | Some rs3 => (sm3, ev2 ++ [EvSignalMaxFloat (queue rs3) v], Ok tt)
            | None => (sm3, ev2, Panic)
            end
        end
  end.

(** [SubFloat] *)
Definition SubFloat (sm : senderMonitor SM RM) (addr : Address) (amount : Z)
    (now : Z) : senderMonitor SM RM * list event :=
  let '(sm1, ev1) := ensureCache sm addr now in
  match senders sm1 !! addr with
  | None => (sm1, ev1)
  | Some rs =>
      (set_senders sm1
         (alter (set_pending (pendingAmount rs + amount)) addr (senders sm1)),
       ev1 ++ [EvClearErrCount addr])
  end.

(** [MaxFloat] *)
Definition MaxFloat (sm : senderMonitor SM RM) (addr : Address) (now : Z)
  : senderMonitor SM RM * list event * res Z :=
  let '(sm1, ev1) := ensureCache sm addr now in
  let '(sm2, r) := maxFloat sm1 addr in
  (sm2, ev1, r).

(** [QueueTicket] *)
Definition QueueTicket (sm : senderMonitor SM RM) (addr : Address)
    (ticket : SignedTicket) (now : Z) : senderMonitor SM RM * list event :=
  let '(sm1, ev1) := ensureCache sm addr now in
  match senders sm1 !! addr with
  | None => (sm1, ev1)
  | Some rs => (sm1, ev1 ++ [EvQueueAdd (queue rs) ticket])
  end.

(** One iteration of the loop of [cleanup] on the entry [(k, v)]. *)
Definition cleanup_step (now : Z)
    (acc : senderMonitor SM RM * list event) (kv : Address * remoteSender)
  : senderMonitor SM RM * list event :=
  let '(sm, evs) := acc in
  let '(k, v) := kv in
  if ttl sm <? now - lastAccess v then
    (set_smgr (set_senders sm (delete k (senders sm))) (Clear (smgr sm) k),
     evs ++ [EvDone (done v); EvSmgrClear k])
  else (sm, evs).

(** [cleanup]: [range] over the map (in some order), evicting the records
    idle for more than [ttl] seconds. *)
Definition cleanup (sm : senderMonitor SM RM) (now : Z)
  : senderMonitor SM RM * list event :=
  fold_left (cleanup_step now) (map_to_list (senders sm)) (sm, []).

(** Calls to the monitor, each at a clock reading. *)
Inductive op :=
| OpQueueTicket (a : Address) (t : SignedTicket)
| OpAddFloat (a : Address) (amount : Z)
| OpSubFloat (a : Address) (amount : Z)
| OpMaxFloat (a : Address)
| OpCleanup.

Definition step (sm : senderMonitor SM RM) (now : Z) (o : op)
  : senderMonitor SM RM * list event :=
  match o with
  | OpQueueTicket a t => QueueTicket sm a t now
  | OpAddFloat a y => let '(sm', evs, _) := AddFloat sm a y now in (sm', evs)
  | OpSubFloat a x => SubFloat sm a x now
  | OpMaxFloat a => let '(sm', evs, _) := MaxFloat sm a now in (sm', evs)
  | OpCleanup => cleanup sm now
  end.

(** A run: calls at successive clock readings; the events are dropped. *)
Fixpoint run (sm : senderMonitor SM RM) (ops : list (Z * op))
  : senderMonitor SM RM :=
  match ops with
  | [] => sm
  | (t, o) :: rest => run (step sm t o).1 rest
  end.

(** The record [cache] creates. *)
Definition fresh_sender (id : nat) (now : Z) : remoteSender :=
  {| pendingAmount := 0; queue := id; done := id; lastAccess := now |}.

(** The record [ensureCache] leaves at [addr]. *)
Definition touched sm (addr : Address) (now : Z) : remoteSender :=
  match senders sm !! addr with
  | Some rs => set_lastAccess now rs
  | None => fresh_sender (nextId sm) now
  end.

(** [reserveAlloc] reads only the collaborators and the claimant. *)
Definition reserveAlloc_of (s : SM) (c : Address) (r : RM) (addr : Address)
  : SM * res Z :=
  let '(sm', v) :=
    reserveAlloc {| claimant := c; ttl := 0; senders := ∅; smgr := s; rm := r;
                    nextId := 0 |} addr in
  (smgr sm', v).

(** The eviction test of [cleanup]. *)
Definition expired (ttl now : Z) (kv : Address * remoteSender) : bool :=
  ttl <? now - lastAccess kv.2.

(** The address a call is about ([None] for [cleanup]). *)
Definition op_addr (o : op) : option Address :=
  match o with
  | OpQueueTicket a _ | OpAddFloat a _ | OpSubFloat a _ | OpMaxFloat a => Some a
  | OpCleanup => None
  end.

(** Every record has a non-negative [pendingAmount]. *)
Definition pending_nonneg sm : Prop :=
  forall a rs, senders sm !! a = Some rs -> 0 <= pendingAmount rs.

Definition op_amount_nonneg (o : op) : Prop :=
  match o with
  | OpAddFloat _ y | OpSubFloat _ y => 0 <= y
  | _ => True
  end.

(** The amount the record at [a] holds ([0] when there is none, as
    [cache] would create it). *)
Definition pending_at sm (a : Address) : Z :=
  match senders sm !! a with
  | Some rs => pendingAmount rs
  | None => 0
  end.

(** Totals of the [SubFloat] and [AddFloat] amounts of a call list. *)
Fixpoint sub_total (ops : list (Z * op)) : Z :=
  match ops with
  | [] => 0
  | (_, OpSubFloat _ x) :: r => x + sub_total r
  | _ :: r => sub_total r
  end.

Fixpoint add_total (ops : list (Z * op)) : Z :=
  match ops with
  | [] => 0
  | (_, OpAddFloat _ y) :: r => y + add_total r
  | _ :: r => add_total r
  end.

(** The call is a [SubFloat] or an [AddFloat] on [a]. *)
Definition float_op_on (a : Address) (o : op) : Prop :=
  match o with
  | OpSubFloat b _ | OpAddFloat b _ => b = a
  | _ => False
  end.

(** [NewSenderMonitor]: an empty sender map (the broker, the cleanup
    interval and the error monitor are not part of this model). *)
Definition NewSenderMonitor (claimant : Address) (smgr : SM) (rm : RM) (ttl : Z)
  : senderMonitor SM RM :=
  {| claimant := claimant; ttl := ttl; senders := ∅; smgr := smgr; rm := rm;
     nextId := 0 |}.

(** Queue handles: each record's queue and [done] channel are the handle
    [cache] allocated, below [nextId], and no two records share one. *)
Definition queues_ok sm : Prop :=
  (forall a rs, senders sm !! a = Some rs ->
     queue rs = done rs /\ (queue rs < nextId sm)%nat) /\
  (forall a b ra rb, senders sm !! a = Some ra -> senders sm !! b = Some rb ->
     queue ra = queue rb -> a = b).

(** The sender manager's reads leave its state as it is (as the test stub). *)
Definition smgr_reads_pure (s : SM) : Prop :=
  forall a c, (GetSenderInfo s a).1 = s /\ (ClaimedReserve s a c).1 = s.

End Monitor.

(** A fixed sender manager, as the test stub: the sender infos and claimed
    amounts are maps (a missing entry is a nil pointer), each call may
    fail with a set error. *)
Record fixedSenderManager := {
  fsInfo : gmap Z SenderInfo;
  fsClaimed : gmap Z Z;
  fsInfoErr : option error;
  fsClaimedErr : option error
}.

#[export] Instance fixedSenderManager_SenderManager
  : SenderManager fixedSenderManager := {
  GetSenderInfo s a := (s, (fsInfo s !! a, fsInfoErr s));
  ClaimedReserve s a _ := (s, (fsClaimed s !! a, fsClaimedErr s));
  Clear s a :=
    {| fsInfo := delete a (fsInfo s); fsClaimed := delete a (fsClaimed s);
       fsInfoErr := fsInfoErr s; fsClaimedErr := fsClaimedErr s |}
}.

(** The rounds manager of the tests: a fixed pool size. *)
Record stubRoundsManager := { transcoderPoolSize : Z }.

#[export] Instance stubRoundsManager_RoundsManager
  : RoundsManager stubRoundsManager := {
  GetTranscoderPoolSize r := transcoderPoolSize r
}.

(** Modelled from the spec: the SenderManager implementation
    (pm/sendermanager.go, not in this source set). Section 3 and 4.5 of
    the spec: it caches each sender's chain state on first read, serves
    later reads from that cache, and [Clear] drops the cached entry, so
    the next read refetches chain state. The claimed amounts are read
    from the chain (absent means 0). *)
Record cachingSenderManager := {
  chainInfo : gmap Z SenderInfo;
  chainClaimed : gmap Z Z;
  infoCache : gmap Z SenderInfo
}.

Definition set_chainInfo (s : cachingSenderManager) (m : gmap Z SenderInfo)
  : cachingSenderManager :=
  {| chainInfo := m; chainClaimed := chainClaimed s; infoCache := infoCache s |}.

Definition errUnknownSender : error := "sender info not found".

#[export] Instance cachingSenderManager_SenderManager
  : SenderManager cachingSenderManager := {
  GetSenderInfo s a :=
    match infoCache s !! a with
    | Some i => (s, (Some i, None))
    | None =>
        match chainInfo s !! a with
        | Some i =>
            ({| chainInfo := chainInfo s; chainClaimed := chainClaimed s;
                infoCache := <[a := i]> (infoCache s) |}, (Some i, None))
        | None => (s, (None, Some errUnknownSender))
        end
    end;
  ClaimedReserve s a _ := (s, (Some (default 0 (chainClaimed s !! a)), None));
  Clear s a :=
    {| chainInfo := chainInfo s; chainClaimed := chainClaimed s;
       infoCache := delete a (infoCache s) |}
}.

(** The external chain state changes the info of [a] to [i]. *)
Definition chain_update {RM : Type} (sm : senderMonitor cachingSenderManager RM)
    (a : Address) (i : SenderInfo)
  : senderMonitor cachingSenderManager RM :=
  set_smgr sm (set_chainInfo (smgr sm) (<[a := i]> (chainInfo (smgr sm)))).

(** Fixtures of the tests: claimant 1, ttl 3600, sender 7. *)
Definition info_reserve (r : Z) : SenderInfo :=
  {| Deposit := 500; WithdrawBlock := 0; Reserve := r;
     ReserveStateOf := NotFrozen; ThawRound := 0 |}.

Definition fixture (s : fixedSenderManager) (pool : Z)
  : senderMonitor fixedSenderManager stubRoundsManager :=
  {| claimant := 1; ttl := 3600; senders := ∅; smgr := s;
     rm := {| transcoderPoolSize := pool |}; nextId := 0 |}.

Definition stub7 : fixedSenderManager :=
  {| fsInfo := {[7 := info_reserve 500]}; fsClaimed := {[7 := 100]};
     fsInfoErr := None; fsClaimedErr := None |}.

(** [GetSenderInfo] fails (the first case of the tests). *)
Definition stub7_info_err : fixedSenderManager :=
  {| fsInfo := {[7 := info_reserve 500]}; fsClaimed := {[7 := 100]};
     fsInfoErr := Some "GetSenderInfo error"; fsClaimedErr := None |}.

(** [GetSenderInfo] succeeds and [ClaimedReserve] fails, returning a nil
    amount ([stub7_claimed_nil]) or an amount ([stub7_claimed_err]). *)
Definition stub7_claimed_nil : fixedSenderManager :=
  {| fsInfo := {[7 := info_reserve 500]}; fsClaimed := ∅;
     fsInfoErr := None; fsClaimedErr := Some "ClaimedReserve error" |}.

Definition stub7_claimed_err : fixedSenderManager :=
  {| fsInfo := {[7 := info_reserve 500]}; fsClaimed := {[7 := 100]};
     fsInfoErr := None; fsClaimedErr := Some "ClaimedReserve error" |}.

(** A monitor over the caching sender manager: sender 7 has reserve 500
    and 100 claimed on chain, nothing cached yet, pool size 50. *)
Definition caching_fixture : senderMonitor cachingSenderManager stubRoundsManager :=
  {| claimant := 1; ttl := 3600; senders := ∅;
     smgr := {| chainInfo := {[7 := info_reserve 500]}; chainClaimed := {[7 := 100]};
                infoCache := ∅ |};
     rm := {| transcoderPoolSize := 50 |}; nextId := 0 |}.

(** * Properties *)

Section Proofs.
Context {SM RM : Type} `{SenderManager SM} `{RoundsManager RM}.
Implicit Types (sm : senderMonitor SM RM).

Lemma alter_some_insert (f : remoteSender -> remoteSender)
    (m : gmap Z remoteSender) (a : Z) (rs : remoteSender) :
  m !! a = Some rs -> alter f a m = <[a := f rs]> m.
Proof.
  intros Ha. apply map_eq. intros i.
  destruct (decide (i = a)) as [->|Hne].
  - rewrite lookup_alter_eq, Ha, lookup_insert_eq. reflexivity.
  - rewrite lookup_alter_ne, lookup_insert_ne by congruence. reflexivity.
Qed.

Lemma ensureCache_eq sm addr now :
  ensureCache sm addr now =
  ({| claimant := claimant sm; ttl := ttl sm;
      senders := <[addr := touched sm addr now]> (senders sm);
      smgr := smgr sm; rm := rm sm;
      nextId := if senders sm !! addr then nextId sm else S (nextId sm) |},
   if senders sm !! addr then [] else [EvQueueStart (nextId sm)]).
Proof.
  unfold ensureCache, touched, set_senders.
  destruct (senders sm !! addr) as [rs|] eqn:E; simpl.
  - rewrite (alter_some_insert _ _ _ rs E). reflexivity.
  - rewrite alter_insert_eq. reflexivity.
Qed.

Lemma ensureCache_lookup sm addr now :
  senders (ensureCache sm addr now).1 !! addr = Some (touched sm addr now).
Proof. rewrite ensureCache_eq. simpl. apply lookup_insert_eq. Qed.

Lemma reserveAlloc_eq sm addr :
  reserveAlloc sm addr =
  (set_smgr sm (reserveAlloc_of (smgr sm) (claimant sm) (rm sm) addr).1,
   (reserveAlloc_of (smgr sm) (claimant sm) (rm sm) addr).2).
Proof.
  unfold reserveAlloc_of, reserveAlloc; simpl.
  destruct (GetSenderInfo (smgr sm) addr) as [s1 [info [e|]]]; simpl; try reflexivity.
  destruct (ClaimedReserve s1 addr (claimant sm)) as [s2 [claimed err]]; simpl.
  destruct (GetTranscoderPoolSize (rm sm) =? 0); [reflexivity|].
  destruct info, claimed; reflexivity.
Qed.

Lemma maxFloat_eq sm addr :
  maxFloat sm addr =
  (set_smgr sm (reserveAlloc_of (smgr sm) (claimant sm) (rm sm) addr).1,
   match (reserveAlloc_of (smgr sm) (claimant sm) (rm sm) addr).2 with
   | Ok r => match senders sm !! addr with
             | Some rs => Ok (r - pendingAmount rs)
             | None => Panic
             end
   | Err e => Err e
   | Panic => Panic
   end).
Proof.
  unfold maxFloat. rewrite reserveAlloc_eq.
  destruct (reserveAlloc_of (smgr sm) (claimant sm) (rm sm) addr) as [s' [v|e|]];
    simpl; try reflexivity.
  destruct (senders sm !! addr); reflexivity.
Qed.

Lemma AddFloat_eq sm addr y now :
  AddFloat sm addr y now =
  (let rs := touched sm addr now in
   let ec := ensureCache sm addr now in
   if pendingAmount rs <? y then (ec.1, ec.2, Err errInsufficientPending)
   else
     let rs' := set_pending (pendingAmount rs - y) rs in
     let ra := reserveAlloc_of (smgr sm) (claimant sm) (rm sm) addr in
     let sm3 := set_smgr (set_senders ec.1 (<[addr := rs']> (senders sm))) ra.1 in
     match ra.2 with
     | Ok r => (sm3, ec.2 ++ [EvClearErrCount addr;
                              EvSignalMaxFloat (queue rs) (r - pendingAmount rs')],
                Ok tt)
     | Err e => (sm3, ec.2 ++ [EvClearErrCount addr], Err e)
     | Panic => (sm3, ec.2 ++ [EvClearErrCount addr], Panic)
     end).
Proof.
  unfold AddFloat. rewrite ensureCache_eq. cbn [senders fst snd].
  rewrite lookup_insert_eq.
  destruct (pendingAmount (touched sm addr now) <? y) eqn:Hg; [reflexivity|].
  unfold set_senders at 1; cbn [senders smgr claimant rm].
  rewrite (alter_some_insert _ _ _ (touched sm addr now)) by apply lookup_insert_eq.
  rewrite insert_insert_eq, maxFloat_eq. cbn [senders smgr claimant rm set_smgr].
  rewrite lookup_insert_eq.
  destruct (reserveAlloc_of (smgr sm) (claimant sm) (rm sm) addr) as [s' [v|e|]];
    cbn; rewrite ?lookup_insert_eq, <-?app_assoc; reflexivity.
Qed.

Lemma SubFloat_eq sm addr x now :
  SubFloat sm addr x now =
  (set_senders (ensureCache sm addr now).1
     (<[addr := set_pending (pendingAmount (touched sm addr now) + x)
                  (touched sm addr now)]> (senders sm)),
   (ensureCache sm addr now).2 ++ [EvClearErrCount addr]).
Proof.
  unfold SubFloat. rewrite ensureCache_eq. cbn [senders fst snd].
  rewrite lookup_insert_eq.
  rewrite (alter_some_insert _ _ _ (touched sm addr now)) by apply lookup_insert_eq.
  rewrite insert_insert_eq. reflexivity.
Qed.

Lemma MaxFloat_eq sm addr now :
  MaxFloat sm addr now =
  (let ec := ensureCache sm addr now in
   let ra := reserveAlloc_of (smgr sm) (claimant sm) (rm sm) addr in
   (set_smgr ec.1 ra.1, ec.2,
    res_map (fun r => r - pendingAmount (touched sm addr now)) ra.2)).
Proof.
  unfold MaxFloat. rewrite ensureCache_eq. cbn [fst snd].
  rewrite maxFloat_eq. cbn [senders smgr claimant rm].
  rewrite lookup_insert_eq.
  destruct (reserveAlloc_of (smgr sm) (claimant sm) (rm sm) addr) as [s' [v|e|]];
    reflexivity.
Qed.

Lemma QueueTicket_eq sm addr t now :
  QueueTicket sm addr t now =
  ((ensureCache sm addr now).1,
   (ensureCache sm addr now).2 ++ [EvQueueAdd (queue (touched sm addr now)) t]).
Proof.
  unfold QueueTicket. rewrite ensureCache_eq. cbn [senders fst snd].
  rewrite lookup_insert_eq. reflexivity.
Qed.

Lemma cleanup_fold_spec now (l : list (Address * remoteSender))
    (acc : senderMonitor SM RM * list event) :
  let r := fold_left (cleanup_step now) l acc in
  let t := ttl acc.1 in
  claimant r.1 = claimant acc.1 /\ ttl r.1 = t /\ rm r.1 = rm acc.1 /\
  nextId r.1 = nextId acc.1 /\
  senders r.1 = fold_left (fun m kv => if expired t now kv then delete kv.1 m else m)
                  l (senders acc.1) /\
  smgr r.1 = fold_left (fun s kv => if expired t now kv then Clear s kv.1 else s)
               l (smgr acc.1) /\
  r.2 = acc.2 ++ concat (map (fun kv => if expired t now kv
                                        then [EvDone (done kv.2); EvSmgrClear kv.1]
                                        else []) l).
Proof.
  revert acc. induction l as [|[k v] l IH]; intros [sm evs].
  - cbn. rewrite app_nil_r. repeat split.
  - cbn [fold_left map concat].
    change (cleanup_step now (sm, evs) (k, v)) with
      (if expired (ttl sm) now (k, v)
       then (set_smgr (set_senders sm (delete k (senders sm))) (Clear (smgr sm) k),
             evs ++ [EvDone (done v); EvSmgrClear k])
       else (sm, evs)).
    cbn [fst snd].
    destruct (expired (ttl sm) now (k, v)) eqn:E.
    + destruct (IH (set_smgr (set_senders sm (delete k (senders sm))) (Clear (smgr sm) k),
                    evs ++ [EvDone (done v); EvSmgrClear k]))
        as (H1 & H2 & H3 & H4 & H5 & H6 & H7).
      cbn [fst snd set_smgr set_senders claimant ttl rm nextId senders smgr] in *.
      rewrite H1, H2, H3, H4, H5, H6, H7, <- app_assoc.
      repeat split.
    + destruct (IH (sm, evs)) as (H1 & H2 & H3 & H4 & H5 & H6 & H7).
      cbn [fst snd] in *. rewrite H1, H2, H3, H4, H5, H6, H7. repeat split.
Qed.

Lemma fold_delete_lookup t now (l : list (Address * remoteSender))
    (m : gmap Z remoteSender) k :
  fold_left (fun m kv => if expired t now kv then delete kv.1 m else m) l m !! k =
  if existsb (fun kv => (kv.1 =? k) && expired t now kv) l then None else m !! k.
Proof.
  revert m. induction l as [|[k' v] l IH]; intros m; simpl; [reflexivity|].
  rewrite IH. destruct (expired t now (k', v)) eqn:E; simpl.
  - destruct (k' =? k) eqn:Ek; simpl.
    + apply Z.eqb_eq in Ek; subst. destruct existsb; [reflexivity|].
      apply lookup_delete_eq.
    + apply Z.eqb_neq in Ek. destruct existsb; [reflexivity|].
      apply lookup_delete_ne; congruence.
  - rewrite andb_false_r. reflexivity.
Qed.

Lemma existsb_expired_map_to_list t now (m : gmap Z remoteSender) k :
  existsb (fun kv => (kv.1 =? k) && expired t now kv) (map_to_list m) = true <->
  exists v, m !! k = Some v /\ expired t now (k, v) = true.
Proof.
  rewrite existsb_exists. split.
  - intros [[k' v] [Hin Hk]]. apply andb_true_iff in Hk as [Hk He].
    apply Z.eqb_eq in Hk; simpl in Hk; subst.
    exists v. split; [|exact He].
    apply elem_of_map_to_list. apply list_elem_of_In. exact Hin.
  - intros [v [Hm He]]. exists (k, v). split.
    + apply list_elem_of_In. apply elem_of_map_to_list. exact Hm.
    + simpl. rewrite Z.eqb_refl. exact He.
Qed.

Lemma cleanup_lookup sm now k :
  senders (cleanup sm now).1 !! k =
  match senders sm !! k with
  | Some v => if expired (ttl sm) now (k, v) then None else Some v
  | None => None
  end.
Proof.
  unfold cleanup.
  destruct (cleanup_fold_spec now (map_to_list (senders sm)) (sm, []))
    as (_ & _ & _ & _ & Hs & _ & _).
  simpl in Hs. rewrite Hs, fold_delete_lookup.
  destruct (existsb _ _) eqn:E.
  - apply existsb_expired_map_to_list in E as [v [Hv He]].
    rewrite Hv, He. reflexivity.
  - destruct (senders sm !! k) as [v|] eqn:Hv; [|reflexivity].
    destruct (expired (ttl sm) now (k, v)) eqn:He; [|reflexivity].
    exfalso. assert (Hx : existsb (fun kv => (kv.1 =? k) && expired (ttl sm) now kv)
                             (map_to_list (senders sm)) = true)
      by (apply existsb_expired_map_to_list; eauto).
    congruence.
Qed.

Lemma cleanup_events sm now :
  (cleanup sm now).2 =
  concat (map (fun kv => if expired (ttl sm) now kv
                         then [EvDone (done kv.2); EvSmgrClear kv.1] else [])
              (map_to_list (senders sm))).
Proof.
  unfold cleanup.
  destruct (cleanup_fold_spec now (map_to_list (senders sm)) (sm, []))
    as (_ & _ & _ & _ & _ & _ & He).
  exact He.
Qed.

Lemma cleanup_frame sm now :
  claimant (cleanup sm now).1 = claimant sm /\ ttl (cleanup sm now).1 = ttl sm /\
  rm (cleanup sm now).1 = rm sm.
Proof.
  unfold cleanup.
  destruct (cleanup_fold_spec now (map_to_list (senders sm)) (sm, []))
    as (H1 & H2 & H3 & _). auto.
Qed.

(** The effect of each call on the sender map. *)
Lemma step_senders sm t o :
  senders (step sm t o).1 =
  match o with
  | OpQueueTicket a _ | OpMaxFloat a => <[a := touched sm a t]> (senders sm)
  | OpSubFloat a x =>
      <[a := set_pending (pendingAmount (touched sm a t) + x) (touched sm a t)]>
        (senders sm)
  | OpAddFloat a y =>
      <[a := if pendingAmount (touched sm a t) <? y then touched sm a t
             else set_pending (pendingAmount (touched sm a t) - y) (touched sm a t)]>
        (senders sm)
  | OpCleanup => senders (cleanup sm t).1
  end.
Proof.
  destruct o as [a tk|a y|a x|a|]; simpl.
  - rewrite QueueTicket_eq, ensureCache_eq. reflexivity.
  - rewrite AddFloat_eq. cbv zeta.
    destruct (pendingAmount (touched sm a t) <? y).
    + rewrite ensureCache_eq. reflexivity.
    + destruct (reserveAlloc_of (smgr sm) (claimant sm) (rm sm) a) as [s' [v|e|]];
        reflexivity.
  - rewrite SubFloat_eq. reflexivity.
  - rewrite MaxFloat_eq. cbv zeta. rewrite ensureCache_eq. reflexivity.
  - destruct (cleanup sm t). reflexivity.
Qed.

Lemma step_frame sm t o :
  claimant (step sm t o).1 = claimant sm /\ ttl (step sm t o).1 = ttl sm /\
  rm (step sm t o).1 = rm sm.
Proof.
  destruct o as [a tk|a y|a x|a|]; simpl.
  - rewrite QueueTicket_eq, ensureCache_eq. auto.
  - rewrite AddFloat_eq. cbv zeta.
    destruct (pendingAmount (touched sm a t) <? y).
    + rewrite ensureCache_eq. auto.
    + destruct (reserveAlloc_of (smgr sm) (claimant sm) (rm sm) a) as [s' [v|e|]];
        rewrite ensureCache_eq; auto.
  - rewrite SubFloat_eq, ensureCache_eq. auto.
  - rewrite MaxFloat_eq. cbv zeta. rewrite ensureCache_eq. auto.
  - pose proof (cleanup_frame sm t). destruct (cleanup sm t). exact H1.
Qed.

Lemma touched_nonneg sm a t :
  pending_nonneg sm -> 0 <= pendingAmount (touched sm a t).
Proof.
  unfold touched. intros Hinv.
  destruct (senders sm !! a) as [rs|] eqn:E; simpl; [|lia].
  exact (Hinv a rs E).
Qed.

Lemma step_pending_nonneg sm t o :
  pending_nonneg sm -> op_amount_nonneg o -> pending_nonneg (step sm t o).1.
Proof.
  intros Hinv Ho b rs Hb. rewrite step_senders in Hb.
  destruct o as [a tk|a y|a x|a|]; simpl in Ho.
  1,4: destruct (decide (a = b)) as [->|Hne];
       [rewrite lookup_insert_eq in Hb; injection Hb as <-;
        apply touched_nonneg; exact Hinv
       |rewrite lookup_insert_ne in Hb by exact Hne; exact (Hinv b rs Hb)].
  - destruct (decide (a = b)) as [->|Hne].
    + rewrite lookup_insert_eq in Hb. injection Hb as <-.
      pose proof (touched_nonneg sm b t Hinv).
      destruct (pendingAmount (touched sm b t) <? y) eqn:E; [lia|].
      apply Z.ltb_ge in E. simpl. lia.
    + rewrite lookup_insert_ne in Hb by exact Hne. exact (Hinv b rs Hb).
  - destruct (decide (a = b)) as [->|Hne].
    + rewrite lookup_insert_eq in Hb. injection Hb as <-.
      pose proof (touched_nonneg sm b t Hinv). simpl. lia.
    + rewrite lookup_insert_ne in Hb by exact Hne. exact (Hinv b rs Hb).
  - rewrite cleanup_lookup in Hb.
    destruct (senders sm !! b) as [v|] eqn:E; [|discriminate].
    destruct (expired (ttl sm) t (b, v)); [discriminate|].
    injection Hb as <-. exact (Hinv b v E).
Qed.

(** ** C4 *)

(** C4. Non-negative pending invariant: from a monitor whose records all
    have [pendingAmount >= 0] (as [NewSenderMonitor]'s empty map), after
    any finite sequence of [QueueTicket], [SubFloat], [AddFloat],
    [MaxFloat] (and [cleanup]) calls whose amounts are non-negative,
    every sender's [pendingAmount] is non-negative. *)
Theorem run_pending_nonneg sm (ops : list (Z * op)) :
  pending_nonneg sm ->
  Forall (fun p => op_amount_nonneg p.2) ops ->
  pending_nonneg (run sm ops).
Proof.
  revert sm. induction ops as [|[t o] ops IH]; intros sm Hinv Hops; simpl.
  - exact Hinv.
  - inversion Hops as [|? ? Ho Hrest]; subst.
    apply IH; [|exact Hrest].
    apply step_pending_nonneg; assumption.
Qed.

(** ** C1 *)

Lemma touched_pending sm a t :
  pendingAmount (touched sm a t) = pending_at sm a.
Proof. unfold touched, pending_at. destruct (senders sm !! a); reflexivity. Qed.

Lemma run_float_net a (ops : list (Z * op)) :
  forall sm n,
  pending_at sm a = n ->
  Forall (fun p => float_op_on a p.2) ops ->
  (forall k, add_total (take k ops) <= n + sub_total (take k ops)) ->
  pending_at (run sm ops) a = n + sub_total ops - add_total ops.
Proof.
  induction ops as [|[t o] ops IH]; intros sm n Hn Hon Hpre; simpl.
  - lia.
  - inversion Hon as [|? ? Ho Hrest]; subst.
    destruct o as [b tk|b y|b x|b|]; simpl in Ho; try contradiction; subst b.
    + (* AddFloat *)
      pose proof (Hpre 1%nat) as H1. simpl in H1.
      assert (Hstep : pending_at (step sm t (OpAddFloat a y)).1 a = pending_at sm a - y).
      { unfold pending_at at 1. rewrite step_senders, lookup_insert_eq, touched_pending.
        destruct (pending_at sm a <? y) eqn:E; [apply Z.ltb_lt in E; lia|].
        reflexivity. }
      rewrite (IH _ (pending_at sm a - y) Hstep Hrest); [lia|].
      intros k. specialize (Hpre (S k)). simpl in Hpre. lia.
    + (* SubFloat *)
      assert (Hstep : pending_at (step sm t (OpSubFloat a x)).1 a = pending_at sm a + x).
      { unfold pending_at at 1. rewrite step_senders, lookup_insert_eq, touched_pending.
        reflexivity. }
      rewrite (IH _ (pending_at sm a + x) Hstep Hrest); [lia|].
      intros k. specialize (Hpre (S k)). simpl in Hpre. lia.
Qed.

(** C1. Float algebra: starting with no pending amount for [a] (no record,
    or a zero [pendingAmount]), after an interleaving of [SubFloat(a, x_i)]
    and [AddFloat(a, y_j)] calls in which the [AddFloat] total never
    exceeds the [SubFloat] total so far, [MaxFloat(a)] returns
    [reserveAlloc(a) - (sum x_i - sum y_j)] (an error of [reserveAlloc] is
    returned as is). The amounts need not even be non-negative. *)
Theorem float_algebra sm a (ops : list (Z * op)) t :
  (forall rs, senders sm !! a = Some rs -> pendingAmount rs = 0) ->
  Forall (fun p => float_op_on a p.2) ops ->
  (forall k, add_total (take k ops) <= sub_total (take k ops)) ->
  (MaxFloat (run sm ops) a t).2 =
  res_map (fun r => r - (sub_total ops - add_total ops))
          (reserveAlloc (run sm ops) a).2.
Proof.
  intros Hz Hon Hpre.
  assert (Hp : pending_at sm a = 0).
  { unfold pending_at. destruct (senders sm !! a) eqn:E; [apply Hz; reflexivity|reflexivity]. }
  pose proof (run_float_net a ops sm 0 Hp Hon ltac:(intros k; specialize (Hpre k); lia))
    as Hnet.
  rewrite MaxFloat_eq, reserveAlloc_eq. cbv zeta. cbn [snd].
  rewrite touched_pending, Hnet. f_equal.
Qed.

Lemma ensureCache_events sm a now :
  (ensureCache sm a now).2 =
  match senders sm !! a with Some _ => [] | None => [EvQueueStart (nextId sm)] end.
Proof. rewrite ensureCache_eq. reflexivity. Qed.

(** ** C9 *)

(** C9. ErrCount reset: an [AddFloat(a, y)] that does not fail with the
    insufficient-pending error, and every [SubFloat(a, x)], calls
    [ClearErrCount(a)]. *)
Theorem clear_err_count sm a y x now :
  ((AddFloat sm a y now).2 <> Err errInsufficientPending ->
   In (EvClearErrCount a) (AddFloat sm a y now).1.2) /\
  In (EvClearErrCount a) (SubFloat sm a x now).2.
Proof.
  split.
  - rewrite AddFloat_eq. cbv zeta.
    destruct (pendingAmount (touched sm a now) <? y); [intros Hn; contradiction|].
    intros _.
    destruct (reserveAlloc_of (smgr sm) (claimant sm) (rm sm) a) as [s' [v|e|]];
      cbn [fst snd]; apply in_or_app; right; simpl; auto.
  - rewrite SubFloat_eq. cbn [snd]. apply in_or_app. right. simpl. auto.
Qed.

Lemma AddFloat_guard_fail sm a y now :
  pending_at sm a < y ->
  (AddFloat sm a y now).2 = Err errInsufficientPending /\
  (AddFloat sm a y now).1.1 = (ensureCache sm a now).1 /\
  (AddFloat sm a y now).1.2 = (ensureCache sm a now).2.
Proof.
  intros Hlt. rewrite AddFloat_eq. cbv zeta. rewrite touched_pending.
  assert (Hg : (pending_at sm a <? y) = true) by (apply Z.ltb_lt; exact Hlt).
  rewrite Hg. repeat split.
Qed.

(** ** C3 *)

(** C3 (as the code does it). AddFloat guard: if [y] exceeds [a]'s current
    [pendingAmount] (0 for a sender without record), [AddFloat(a, y)]
    returns the insufficient-pending error; the monitor is left as
    [ensureCache] leaves it (record created if absent, [lastAccess]
    stamped), so [pendingAmount] keeps its value, and the only event is
    the start of a new queue when the record was created: no
    [ClearErrCount], no max-float signal. *)
Theorem addFloat_guard sm a y now :
  pending_at sm a < y ->
  (AddFloat sm a y now).2 = Err errInsufficientPending /\
  (AddFloat sm a y now).1.1 = (ensureCache sm a now).1 /\
  pending_at (AddFloat sm a y now).1.1 a = pending_at sm a /\
  (AddFloat sm a y now).1.2 =
    match senders sm !! a with Some _ => [] | None => [EvQueueStart (nextId sm)] end.
Proof.
  intros Hlt. destruct (AddFloat_guard_fail sm a y now Hlt) as (H1 & H2 & H3).
  rewrite H1, H2, H3, ensureCache_events. split; [reflexivity|].
  split; [reflexivity|]. split; [|reflexivity].
  unfold pending_at at 1. rewrite ensureCache_lookup, touched_pending. reflexivity.
Qed.

(** ** C7 *)

(** C7 (as the code does it). Pool-size zero: when the pool size is 0 and
    [GetSenderInfo] returns no error, [reserveAlloc(a)] is 0 with no error
    and [MaxFloat(a)] returns the negation of [a]'s [pendingAmount]; when
    [GetSenderInfo] returns an error [e], it is checked before the pool
    size and [reserveAlloc(a)] and [MaxFloat(a)] both return [e]. *)
Theorem pool_size_zero sm a now :
  GetTranscoderPoolSize (rm sm) = 0 ->
  ((GetSenderInfo (smgr sm) a).2.2 = None ->
   (reserveAlloc sm a).2 = Ok 0 /\
   (MaxFloat sm a now).2 = Ok (- pending_at sm a)) /\
  (forall e, (GetSenderInfo (smgr sm) a).2.2 = Some e ->
   (reserveAlloc sm a).2 = Err e /\
   (MaxFloat sm a now).2 = Err e).
Proof.
  intros Hpool. split.
  - intros Hinfo.
    assert (Hra : (reserveAlloc sm a).2 = Ok 0).
    { unfold reserveAlloc.
      destruct (GetSenderInfo (smgr sm) a) as [s1 [info err]]. simpl in Hinfo. subst err.
      destruct (ClaimedReserve s1 a (claimant sm)) as [s2 [claimed err]].
      rewrite Hpool. reflexivity. }
    split; [exact Hra|].
    rewrite MaxFloat_eq. cbv zeta. cbn [snd].
    rewrite reserveAlloc_eq in Hra. cbn [snd] in Hra. rewrite Hra, touched_pending.
    reflexivity.
  - intros e Hinfo.
    assert (Hra : (reserveAlloc sm a).2 = Err e).
    { unfold reserveAlloc.
      destruct (GetSenderInfo (smgr sm) a) as [s1 [info err]]. simpl in Hinfo. subst err.
      reflexivity. }
    split; [exact Hra|].
    rewrite MaxFloat_eq. cbv zeta. cbn [snd].
    rewrite reserveAlloc_eq in Hra. cbn [snd] in Hra. rewrite Hra. reflexivity.
Qed.

(** ** C8 *)

(** C8. Retirement is authoritative: when [y <= pendingAmount] and the
    allocation read fails with [e], [AddFloat(a, y)] returns [e] and the
    decrease of [pendingAmount] by [y] is kept. *)
Theorem addFloat_read_error_keeps_decrease sm a y now e :
  y <= pending_at sm a ->
  (reserveAlloc sm a).2 = Err e ->
  (AddFloat sm a y now).2 = Err e /\
  pending_at (AddFloat sm a y now).1.1 a = pending_at sm a - y.
Proof.
  intros Hle Hra. rewrite reserveAlloc_eq in Hra. cbn [snd] in Hra.
  rewrite AddFloat_eq. cbv zeta. rewrite touched_pending.
  assert (Hg : (pending_at sm a <? y) = false) by (apply Z.ltb_ge; exact Hle).
  rewrite Hg.
  destruct (reserveAlloc_of (smgr sm) (claimant sm) (rm sm) a) as [s' r].
  cbn [snd] in Hra. subst r. cbn [fst snd]. split; [reflexivity|].
  unfold pending_at at 1. cbn [set_smgr set_senders senders].
  rewrite lookup_insert_eq. reflexivity.
Qed.

(** ** C10 *)

Lemma step_touch sm t o a :
  op_addr o = Some a ->
  exists rs, senders (step sm t o).1 !! a = Some rs /\ lastAccess rs = t.
Proof.
  intros Ho. rewrite step_senders.
  assert (Ht : lastAccess (touched sm a t) = t).
  { unfold touched. destruct (senders sm !! a); reflexivity. }
  destruct o as [b tk|b y|b x|b|]; simpl in Ho; try discriminate;
    injection Ho as ->; rewrite lookup_insert_eq; eexists; split; try reflexivity;
    first [exact Ht | destruct (pendingAmount _ <? _); exact Ht].
Qed.

(** C10. Every public call ([QueueTicket], [AddFloat], [SubFloat],
    [MaxFloat]) on [a] at time [t] runs [ensureCache] first and leaves a
    record for [a] stamped with [t]; in particular an [AddFloat] of a
    positive amount on a sender without record fails with the
    insufficient-pending error, yet leaves a fresh record ([pendingAmount]
    0, a new started queue, [lastAccess] = now). *)
Theorem addFloat_failure_creates_record sm a y now :
  senders sm !! a = None -> 0 < y ->
  (AddFloat sm a y now).2 = Err errInsufficientPending /\
  senders (AddFloat sm a y now).1.1 !! a = Some (fresh_sender (nextId sm) now) /\
  lastAccess (fresh_sender (nextId sm) now) = now /\
  pendingAmount (fresh_sender (nextId sm) now) = 0 /\
  (AddFloat sm a y now).1.2 = [EvQueueStart (nextId sm)] /\
  (forall t o, op_addr o = Some a ->
     exists rs, senders (step sm t o).1 !! a = Some rs /\ lastAccess rs = t).
Proof.
  intros Hnone Hy.
  assert (Hp : pending_at sm a < y) by (unfold pending_at; rewrite Hnone; exact Hy).
  destruct (AddFloat_guard_fail sm a y now Hp) as (H1 & H2 & H3).
  rewrite H1, H2, H3, ensureCache_events, Hnone, ensureCache_lookup.
  unfold touched. rewrite Hnone. repeat split.
  intros t o Ho. apply step_touch. exact Ho.
Qed.

(** ** C5 *)

Lemma step_other sm t o a b :
  op_addr o = Some b -> b <> a -> senders (step sm t o).1 !! a = senders sm !! a.
Proof.
  intros Ho Hne. rewrite step_senders.
  destruct o as [c tk|c y|c x|c|]; simpl in Ho; try discriminate;
    injection Ho as ->; apply lookup_insert_ne; exact Hne.
Qed.

(** A record whose last access is at or after [t] survives calls made at
    or after [t] (no [cleanup] among them), with its [lastAccess] still at
    or after [t]. *)
Lemma run_keeps_recent a t (ops : list (Z * op)) :
  forall sm,
  (exists rs, senders sm !! a = Some rs /\ t <= lastAccess rs) ->
  Forall (fun p => t <= p.1 /\ p.2 <> OpCleanup) ops ->
  ttl (run sm ops) = ttl sm /\
  exists rs, senders (run sm ops) !! a = Some rs /\ t <= lastAccess rs.
Proof.
  induction ops as [|[t' o] ops IH]; intros sm Hrec Hops; simpl.
  - split; [reflexivity|exact Hrec].
  - inversion Hops as [|? ? [Ht' Hnc] Hrest]; subst. simpl in Ht', Hnc.
    destruct (step_frame sm t' o) as (_ & Httl & _).
    assert (Hrec' : exists rs, senders (step sm t' o).1 !! a = Some rs /\
                               t <= lastAccess rs).
    { destruct (op_addr o) as [b|] eqn:Ho.
      - destruct (decide (b = a)) as [->|Hne].
        + destruct (step_touch sm t' o a Ho) as [rs [Hrs Hla]].
          exists rs. split; [exact Hrs|lia].
        + rewrite (step_other sm t' o a b Ho Hne). exact Hrec.
      - destruct o; simpl in Ho; try discriminate. contradiction. }
    destruct (IH _ Hrec' Hrest) as [Hl Hr].
    split; [rewrite Hl; exact Httl|exact Hr].
Qed.

(** C5. TTL cleanup and exclusion.
    (1) [cleanup] at time [now] removes exactly the records with
        [now - lastAccess > ttl] and keeps the others unchanged;
    (2) it calls [smgr.Clear(k)] exactly for the evicted addresses [k]
        (and signals the [done] channel of each evicted record);
    (3) every [QueueTicket], [AddFloat], [SubFloat] or [MaxFloat] call on
        [a] at time [t] stamps [a]'s [lastAccess] with [t];
    (4) so if the next [cleanup] runs at [now'] with [now' - t <= ttl]
        (other calls at times [>= t] in between), [a] is not evicted. *)
Theorem cleanup_ttl sm now :
  (forall k,
     senders (cleanup sm now).1 !! k =
     match senders sm !! k with
     | Some v => if ttl sm <? now - lastAccess v then None else Some v
     | None => None
     end) /\
  (forall k,
     In (EvSmgrClear k) (cleanup sm now).2 <->
     exists v, senders sm !! k = Some v /\ ttl sm < now - lastAccess v) /\
  (forall k v,
     senders sm !! k = Some v -> ttl sm < now - lastAccess v ->
     In (EvDone (done v)) (cleanup sm now).2) /\
  (forall t o a,
     op_addr o = Some a ->
     exists rs, senders (step sm t o).1 !! a = Some rs /\ lastAccess rs = t) /\
  (forall t o a (ops : list (Z * op)) now',
     op_addr o = Some a ->
     Forall (fun p => t <= p.1 /\ p.2 <> OpCleanup) ops ->
     now' - t <= ttl sm ->
     exists rs, senders (cleanup (run (step sm t o).1 ops) now').1 !! a = Some rs).
Proof.
  split; [|split; [|split; [|split]]].
  - intros k. rewrite cleanup_lookup. reflexivity.
  - intros k. rewrite cleanup_events, in_concat. split.
    + intros [evs [Hin Hk]]. apply in_map_iff in Hin as [[k' v] [<- Hkv]].
      unfold expired in Hk. simpl in Hk.
      destruct (ttl sm <? now - lastAccess v) eqn:E; [|contradiction].
      destruct Hk as [Hk|[Hk|[]]]; [discriminate|injection Hk as ->].
      exists v. split; [|apply Z.ltb_lt; exact E].
      apply elem_of_map_to_list. apply list_elem_of_In. exact Hkv.
    + intros [v [Hv Hlt]]. exists [EvDone (done v); EvSmgrClear k]. split.
      * apply in_map_iff. exists (k, v). split.
        -- unfold expired. simpl. apply Z.ltb_lt in Hlt. rewrite Hlt. reflexivity.
        -- apply list_elem_of_In. apply elem_of_map_to_list. exact Hv.
      * simpl. auto.
  - intros k v Hv Hlt. rewrite cleanup_events, in_concat.
    exists [EvDone (done v); EvSmgrClear k]. split.
    + apply in_map_iff. exists (k, v). split.
      * unfold expired. simpl. apply Z.ltb_lt in Hlt. rewrite Hlt. reflexivity.
      * apply list_elem_of_In. apply elem_of_map_to_list. exact Hv.
    + simpl. auto.
  - intros t o a Ho. apply step_touch. exact Ho.
  - intros t o a ops now' Ho Hops Hwin.
    destruct (step_touch sm t o a Ho) as [rs [Hrs Hla]].
    destruct (step_frame sm t o) as (_ & Httl & _).
    destruct (run_keeps_recent a t ops (step sm t o).1
                ltac:(exists rs; split; [exact Hrs|lia]) Hops)
      as [Hl [rs' [Hrs' Hla']]].
    rewrite cleanup_lookup, Hrs'. exists rs'.
    assert (He : (ttl (run (step sm t o).1 ops) <? now' - lastAccess rs') = false)
      by (apply Z.ltb_ge; rewrite Hl, Httl; lia).
    unfold expired. simpl. rewrite He. reflexivity.
Qed.

End Proofs.

(** ** C6: the monitor over the caching sender manager *)

Section Caching.
Context {RM : Type} `{RoundsManager RM}.
Implicit Types (sm : senderMonitor cachingSenderManager RM).

Lemma caching_reserveAlloc_hit (s : cachingSenderManager) c r a i :
  infoCache s !! a = Some i ->
  reserveAlloc_of s c r a =
  (s, if GetTranscoderPoolSize r =? 0 then Ok 0
      else Ok (bigDiv (Reserve i) (GetTranscoderPoolSize r)
               - default 0 (chainClaimed s !! a))).
Proof.
  intros Hi. unfold reserveAlloc_of, reserveAlloc. simpl. rewrite Hi.
  destruct (GetTranscoderPoolSize r =? 0); reflexivity.
Qed.

Lemma caching_reserveAlloc_fills (s : cachingSenderManager) c r a :
  (reserveAlloc_of s c r a).2 <> Err errUnknownSender ->
  exists i, infoCache (reserveAlloc_of s c r a).1 !! a = Some i.
Proof.
  intros Hne. destruct (infoCache s !! a) as [i|] eqn:Hc.
  - rewrite (caching_reserveAlloc_hit s c r a i Hc). exists i. exact Hc.
  - revert Hne. unfold reserveAlloc_of, reserveAlloc. simpl. rewrite Hc.
    destruct (chainInfo s !! a) as [i|] eqn:Hch; simpl.
    + intros _. destruct (GetTranscoderPoolSize r =? 0); simpl;
        exists i; apply lookup_insert_eq.
    + intros Hne. exfalso. apply Hne. reflexivity.
Qed.

Lemma fold_clear_keeps (l : list (Address * remoteSender)) t now
    (s : cachingSenderManager) a :
  (forall kv, In kv l -> kv.1 = a -> expired t now kv = false) ->
  infoCache (fold_left (fun s kv => if expired t now kv then Clear s kv.1 else s) l s)
    !! a = infoCache s !! a.
Proof.
  revert s. induction l as [|[k v] l IH]; intros s Hl; simpl; [reflexivity|].
  rewrite IH by (intros kv Hin; apply Hl; simpl; auto).
  destruct (expired t now (k, v)) eqn:E; [|reflexivity].
  simpl. apply lookup_delete_ne. intros ->.
  rewrite (Hl (a, v) (or_introl eq_refl) eq_refl) in E. discriminate.
Qed.

(** C6 (spec-modelled sender manager). Cached value on non-eviction: after
    a successful read of [a] by [MaxFloat] at [t0], a [cleanup] at [now]
    with [now - t0 <= ttl] does not evict [a]; when the chain then changes
    [a]'s info to [newinfo], the next [MaxFloat(a)] returns what it would
    have returned without the change: the value of the cached info. *)
Theorem cached_value_on_non_eviction sm a t0 now t1 newinfo :
  (MaxFloat sm a t0).2 <> Err errUnknownSender ->
  now - t0 <= ttl sm ->
  let sm2 := (cleanup (MaxFloat sm a t0).1.1 now).1 in
  (MaxFloat (chain_update sm2 a newinfo) a t1).2 = (MaxFloat sm2 a t1).2.
Proof.
  intros Hok Hwin.
  set (sm1 := (MaxFloat sm a t0).1.1). intros sm2.
  rewrite MaxFloat_eq in Hok. cbv zeta in Hok. cbn [snd] in Hok.
  assert (Hra : (reserveAlloc_of (smgr sm) (claimant sm) (rm sm) a).2
                <> Err errUnknownSender).
  { intros He. apply Hok. rewrite He. reflexivity. }
  destruct (caching_reserveAlloc_fills _ _ _ _ Hra) as [i Hi].
  assert (Hsm1 : smgr sm1 = (reserveAlloc_of (smgr sm) (claimant sm) (rm sm) a).1 /\
                 senders sm1 !! a = Some (touched sm a t0) /\
                 ttl sm1 = ttl sm).
  { unfold sm1. rewrite MaxFloat_eq. cbv zeta. rewrite ensureCache_eq.
    cbn. split; [reflexivity|]. split; [apply lookup_insert_eq|reflexivity]. }
  destruct Hsm1 as (Hs1 & Hl1 & Ht1).
  (* the cleanup keeps [a]'s cache entry *)
  assert (Hcache : infoCache (smgr sm2) !! a = Some i).
  { unfold sm2, cleanup.
    destruct (cleanup_fold_spec now (map_to_list (senders sm1)) (sm1, []))
      as (_ & _ & _ & _ & _ & Hs & _).
    cbn [fst] in Hs. rewrite Hs, fold_clear_keeps, Hs1; [exact Hi|].
    intros [k v] Hin Hk. simpl in Hk. subst k.
    apply list_elem_of_In, elem_of_map_to_list in Hin.
    rewrite Hl1 in Hin. injection Hin as <-.
    unfold expired, touched. simpl. apply Z.ltb_ge. rewrite Ht1.
    destruct (senders sm !! a); simpl; lia. }
  rewrite !MaxFloat_eq. cbv zeta.
  assert (Hcache' : infoCache (smgr (chain_update sm2 a newinfo)) !! a = Some i)
    by exact Hcache.
  rewrite (caching_reserveAlloc_hit _ _ _ _ _ Hcache),
          (caching_reserveAlloc_hit _ _ _ _ _ Hcache').
  reflexivity.
Qed.

End Caching.

(** * Further properties of the monitor *)

(** Closes [~ In ev l] for a literal list [l] none of whose elements is [ev]. *)
Ltac not_in_literal :=
  let Hin := fresh "Hin" in
  intros Hin; simpl in Hin;
  repeat (destruct Hin as [Hin|Hin]; [discriminate|]); contradiction.

Section Extras.
Context {SM RM : Type} `{SenderManager SM} `{RoundsManager RM}.
Implicit Types (sm : senderMonitor SM RM).

Lemma concat_map_nil {A B : Type} (f : A -> list B) (l : list A) :
  (forall x, In x l -> f x = []) -> concat (map f l) = [].
Proof.
  induction l as [|x l IH]; intros Hf; simpl; [reflexivity|].
  rewrite (Hf x (or_introl eq_refl)). apply IH. intros y Hy. apply Hf. simpl. auto.
Qed.

Lemma step_nextId sm t o :
  nextId (step sm t o).1 =
  match op_addr o with
  | Some a => if senders sm !! a then nextId sm else S (nextId sm)
  | None => nextId sm
  end.
Proof.
  destruct o as [a tk|a y|a x|a|]; simpl.
  - rewrite QueueTicket_eq, ensureCache_eq. reflexivity.
  - rewrite AddFloat_eq. cbv zeta.
    destruct (pendingAmount (touched sm a t) <? y).
    + rewrite ensureCache_eq. reflexivity.
    + destruct (reserveAlloc_of (smgr sm) (claimant sm) (rm sm) a) as [s' [v|e|]];
        rewrite ensureCache_eq; reflexivity.
  - rewrite SubFloat_eq, ensureCache_eq. reflexivity.
  - rewrite MaxFloat_eq. cbv zeta. rewrite ensureCache_eq. reflexivity.
  - unfold cleanup.
    destruct (cleanup_fold_spec t (map_to_list (senders sm)) (sm, []))
      as (_ & _ & _ & Hn & _). exact Hn.
Qed.

(** A call on [a] replaces [a]'s record by one with the queue and [done]
    channel of the record [ensureCache] leaves. *)
Lemma step_record sm t o a :
  op_addr o = Some a ->
  exists X, senders (step sm t o).1 = <[a := X]> (senders sm) /\
            queue X = queue (touched sm a t) /\ done X = done (touched sm a t).
Proof.
  intros Ho. rewrite step_senders.
  destruct o as [b tk|b y|b x|b|]; simpl in Ho; try discriminate; injection Ho as ->;
    eexists; (split; [reflexivity|]); try (split; reflexivity).
  destruct (pendingAmount (touched sm a t) <? y); split; reflexivity.
Qed.

Lemma touched_queue sm a t :
  queue (touched sm a t) =
    match senders sm !! a with Some rs => queue rs | None => nextId sm end /\
  done (touched sm a t) =
    match senders sm !! a with Some rs => done rs | None => nextId sm end.
Proof. unfold touched. destruct (senders sm !! a); split; reflexivity. Qed.

Lemma step_queues_ok sm t o :
  queues_ok sm -> queues_ok (step sm t o).1.
Proof.
  intros [Hlt Huniq]. unfold queues_ok.
  pose proof (step_nextId sm t o) as Hn.
  destruct (op_addr o) as [a|] eqn:Ho.
  - destruct (step_record sm t o a Ho) as (X & Hs & Hq & Hd).
    destruct (touched_queue sm a t) as [Hq' Hd'].
    rewrite Hs, Hn.
    destruct (senders sm !! a) as [rs|] eqn:Ea.
    + destruct (Hlt a rs Ea) as [Hqd Hqn].
      assert (Hfind : forall d rd, <[a := X]> (senders sm) !! d = Some rd ->
                        exists rd', senders sm !! d = Some rd' /\ queue rd' = queue rd).
      { intros d rd Hdd. destruct (decide (d = a)) as [->|Hne].
        - rewrite lookup_insert_eq in Hdd. injection Hdd as <-.
          exists rs. split; [exact Ea|congruence].
        - rewrite lookup_insert_ne in Hdd by congruence. exists rd. auto. }
      split.
      * intros b rb Hb. destruct (decide (b = a)) as [->|Hne].
        -- rewrite lookup_insert_eq in Hb. injection Hb as <-.
           split; [congruence|rewrite Hq, Hq'; exact Hqn].
        -- rewrite lookup_insert_ne in Hb by congruence. exact (Hlt b rb Hb).
      * intros b c rb rc Hb Hc Heq.
        destruct (Hfind b rb Hb) as (rb' & Hb' & Hqb).
        destruct (Hfind c rc Hc) as (rc' & Hc' & Hqc).
        apply (Huniq b c rb' rc' Hb' Hc'). congruence.
    + split.
      * intros b rb Hb. destruct (decide (b = a)) as [->|Hne].
        -- rewrite lookup_insert_eq in Hb. injection Hb as <-.
           split; [congruence|rewrite Hq, Hq'; lia].
        -- rewrite lookup_insert_ne in Hb by congruence.
           destruct (Hlt b rb Hb). split; [assumption|lia].
      * intros b c rb rc Hb Hc Heq.
        destruct (decide (b = a)) as [->|Hba]; destruct (decide (c = a)) as [->|Hca].
        -- reflexivity.
        -- rewrite lookup_insert_eq in Hb. rewrite lookup_insert_ne in Hc by congruence.
           injection Hb as <-. destruct (Hlt c rc Hc) as [_ Hlt'].
           rewrite Hq, Hq' in Heq. lia.
        -- rewrite lookup_insert_eq in Hc. rewrite lookup_insert_ne in Hb by congruence.
           injection Hc as <-. destruct (Hlt b rb Hb) as [_ Hlt'].
           rewrite Hq, Hq' in Heq. lia.
        -- rewrite lookup_insert_ne in Hb, Hc by congruence.
           exact (Huniq b c rb rc Hb Hc Heq).
  - rewrite Hn.
    assert (Hsub : forall k v, senders (step sm t o).1 !! k = Some v ->
                               senders sm !! k = Some v).
    { destruct o; simpl in Ho; try discriminate. intros k v Hk. simpl in Hk.
      rewrite cleanup_lookup in Hk. destruct (senders sm !! k); [|discriminate].
      destruct (expired (ttl sm) t (k, r)); congruence. }
    split; [intros b rb Hb; exact (Hlt b rb (Hsub _ _ Hb))|].
    intros b c rb rc Hb Hc. apply (Huniq b c rb rc); auto.
Qed.

Lemma run_queues_ok sm (ops : list (Z * op)) :
  queues_ok sm -> queues_ok (run sm ops).
Proof.
  revert sm. induction ops as [|[t o] ops IH]; intros sm Hq; simpl; [exact Hq|].
  apply IH, step_queues_ok, Hq.
Qed.

(** X1. From [NewSenderMonitor], after any calls (and cleanups), every
    record's queue and [done] channel are one handle allocated by [cache]
    (below [nextId]), and no two senders share a queue. *)
Theorem queue_handles_unique (c : Address) (s : SM) (r : RM) (ttl0 : Z)
    (ops : list (Z * op)) :
  queues_ok (run (NewSenderMonitor c s r ttl0) ops).
Proof.
  apply run_queues_ok.
  split; [intros a rs Ha|intros a b ra rb Ha]; simpl in Ha;
    rewrite lookup_empty in Ha; discriminate.
Qed.

(** X2. Calls on other senders leave [b]'s record exactly as it was. *)
Theorem calls_on_others_keep_record sm b (ops : list (Z * op)) :
  Forall (fun p => exists a, op_addr p.2 = Some a /\ a <> b) ops ->
  senders (run sm ops) !! b = senders sm !! b.
Proof.
  revert sm. induction ops as [|[t o] ops IH]; intros sm Hops; simpl; [reflexivity|].
  inversion Hops as [|? ? [a [Ho Hne]] Hrest]; subst.
  rewrite (IH _ Hrest). exact (step_other sm t o b a Ho Hne).
Qed.

Lemma step_pending_other sm t o b :
  o <> OpCleanup -> ~ float_op_on b o ->
  pending_at (step sm t o).1 b = pending_at sm b.
Proof.
  intros Hc Hf. unfold pending_at at 1. rewrite step_senders.
  destruct o as [a tk|a y|a x|a|]; simpl in Hf; [..|contradiction].
  1,4: destruct (decide (a = b)) as [->|Hne];
       [rewrite lookup_insert_eq; exact (touched_pending sm b t)
       |rewrite lookup_insert_ne by exact Hne; reflexivity].
  1,2: rewrite lookup_insert_ne by exact Hf; reflexivity.
Qed.

(** X3. [b]'s pending amount changes only through [SubFloat] and
    [AddFloat] on [b] (or an eviction): [QueueTicket] and [MaxFloat] calls,
    and float calls on other senders, leave it as it is. *)
Theorem pending_changed_only_by_float_ops sm b (ops : list (Z * op)) :
  Forall (fun p => p.2 <> OpCleanup /\ ~ float_op_on b p.2) ops ->
  pending_at (run sm ops) b = pending_at sm b.
Proof.
  revert sm. induction ops as [|[t o] ops IH]; intros sm Hops; simpl; [reflexivity|].
  inversion Hops as [|? ? [Hc Hf] Hrest]; subst.
  rewrite (IH _ Hrest). exact (step_pending_other sm t o b Hc Hf).
Qed.

Lemma ensureCache_no_signal sm a now q mf (l : list event) :
  ~ In (EvSignalMaxFloat q mf) l ->
  ~ In (EvSignalMaxFloat q mf) ((ensureCache sm a now).2 ++ l).
Proof.
  intros Hl Hin. apply in_app_or in Hin as [Hin|Hin]; [|exact (Hl Hin)].
  rewrite ensureCache_events in Hin. destruct (senders sm !! a); simpl in Hin;
    [exact Hin|destruct Hin as [Hin|[]]; discriminate].
Qed.

(** X4. [AddFloat] signals a max float exactly when it returns nil: a
    successful call signals the queue of the sender's own record, and any
    signal it emits comes with success and goes to that queue. [SubFloat],
    [MaxFloat] and [QueueTicket] never signal. *)
Theorem signal_only_on_addFloat_success sm a y x tk now :
  ((AddFloat sm a y now).2 = Ok tt ->
   exists rs mf, senders (AddFloat sm a y now).1.1 !! a = Some rs /\
                 In (EvSignalMaxFloat (queue rs) mf) (AddFloat sm a y now).1.2) /\
  (forall q mf, In (EvSignalMaxFloat q mf) (AddFloat sm a y now).1.2 ->
   (AddFloat sm a y now).2 = Ok tt /\
   exists rs, senders (AddFloat sm a y now).1.1 !! a = Some rs /\ q = queue rs) /\
  (forall q mf, ~ In (EvSignalMaxFloat q mf) (SubFloat sm a x now).2) /\
  (forall q mf, ~ In (EvSignalMaxFloat q mf) (MaxFloat sm a now).1.2) /\
  (forall q mf, ~ In (EvSignalMaxFloat q mf) (QueueTicket sm a tk now).2).
Proof.
  split; [|split; [|split; [|split]]].
  - rewrite AddFloat_eq. cbv zeta.
    destruct (pendingAmount (touched sm a now) <? y); [discriminate|].
    destruct (reserveAlloc_of (smgr sm) (claimant sm) (rm sm) a) as [s' [v|e|]];
      cbn [fst snd]; [intros _|discriminate|discriminate].
    eexists _, _. split.
    + unfold set_smgr, set_senders. cbn [senders]. apply lookup_insert_eq.
    + apply in_or_app. right. right. left. reflexivity.
  - intros q mf. rewrite AddFloat_eq. cbv zeta.
    destruct (pendingAmount (touched sm a now) <? y).
    + cbn [fst snd]. intros Hin. exfalso.
      apply (ensureCache_no_signal sm a now q mf []); [intros []|].
      rewrite app_nil_r. exact Hin.
    + destruct (reserveAlloc_of (smgr sm) (claimant sm) (rm sm) a) as [s' [v|e|]];
        cbn [fst snd].
      * intros Hin. split; [reflexivity|].
        eexists. split.
        -- unfold set_smgr, set_senders. cbn [senders]. apply lookup_insert_eq.
        -- apply in_app_or in Hin as [Hin|Hin].
           ++ exfalso. revert Hin. rewrite <- (app_nil_r (ensureCache sm a now).2).
              apply ensureCache_no_signal. intros [].
           ++ destruct Hin as [Hin|[Hin|[]]]; [discriminate|].
              injection Hin as Hq _. symmetry. exact Hq.
      * intros Hin. exfalso. revert Hin. apply ensureCache_no_signal. not_in_literal.
      * intros Hin. exfalso. revert Hin. apply ensureCache_no_signal. not_in_literal.
  - intros q mf. rewrite SubFloat_eq. cbn [snd].
    apply ensureCache_no_signal. not_in_literal.
  - intros q mf. rewrite MaxFloat_eq. cbv zeta. cbn [fst snd].
    rewrite <- (app_nil_r (ensureCache sm a now).2).
    apply ensureCache_no_signal. intros [].
  - intros q mf. rewrite QueueTicket_eq. cbn [snd].
    apply ensureCache_no_signal. not_in_literal.
Qed.

(** X5. [SubFloat(a, x)] then [AddFloat(a, x)] gives [a]'s pending amount
    back, when it was non-negative; the [AddFloat] passes the guard, so it
    returns what the allocation read gives (success, error or panic). *)
Theorem subFloat_addFloat_roundtrip sm a x t t' :
  0 <= pending_at sm a ->
  let sm1 := (SubFloat sm a x t).1 in
  pending_at (AddFloat sm1 a x t').1.1 a = pending_at sm a /\
  (AddFloat sm1 a x t').2 = res_map (fun _ => tt) (reserveAlloc sm1 a).2.
Proof.
  intros Hp sm1.
  assert (Hp1 : pending_at sm1 a = pending_at sm a + x).
  { change sm1 with (step sm t (OpSubFloat a x)).1.
    unfold pending_at at 1. rewrite step_senders, lookup_insert_eq, touched_pending.
    reflexivity. }
  rewrite AddFloat_eq. cbv zeta. rewrite touched_pending, Hp1.
  assert (Hg : (pending_at sm a + x <? x) = false) by (apply Z.ltb_ge; lia).
  rewrite Hg, reserveAlloc_eq. cbn [snd].
  destruct (reserveAlloc_of (smgr sm1) (claimant sm1) (rm sm1) a) as [s' [v|e|]];
    cbn [fst snd res_map]; (split; [|reflexivity]);
    unfold pending_at at 1; unfold set_smgr, set_senders; cbn [senders];
    rewrite lookup_insert_eq; cbn [pendingAmount set_pending]; lia.
Qed.

(** X6. A second [cleanup] at the same time evicts nothing and emits
    nothing. *)
Theorem cleanup_idempotent sm now :
  (cleanup (cleanup sm now).1 now).2 = [] /\
  senders (cleanup (cleanup sm now).1 now).1 = senders (cleanup sm now).1.
Proof.
  set (sm1 := (cleanup sm now).1).
  assert (Httl : ttl sm1 = ttl sm) by apply (cleanup_frame sm now).
  assert (Hk : forall k v, senders sm1 !! k = Some v ->
                           expired (ttl sm1) now (k, v) = false).
  { intros k v Hv. unfold sm1 in Hv. rewrite cleanup_lookup in Hv. rewrite Httl.
    destruct (senders sm !! k) as [v'|]; [|discriminate].
    destruct (expired (ttl sm) now (k, v')) eqn:E; [discriminate|].
    injection Hv as <-. exact E. }
  split.
  - rewrite cleanup_events. apply concat_map_nil.
    intros [k v] Hin. apply list_elem_of_In, elem_of_map_to_list in Hin.
    cbv beta. rewrite (Hk k v Hin). reflexivity.
  - apply map_eq. intros k. rewrite cleanup_lookup.
    destruct (senders sm1 !! k) eqn:E; [rewrite (Hk _ _ E)|]; reflexivity.
Qed.

(** X7. Eviction forgets the pending amount: after a [cleanup] evicts [a],
    the next [MaxFloat(a)] creates a fresh record (new queue, pending 0)
    and returns the allocation read in full. *)
Theorem eviction_forgets_pending sm a v now t :
  senders sm !! a = Some v -> ttl sm < now - lastAccess v ->
  let sm1 := (cleanup sm now).1 in
  senders sm1 !! a = None /\
  (MaxFloat sm1 a t).2 = (reserveAlloc sm1 a).2 /\
  senders (MaxFloat sm1 a t).1.1 !! a = Some (fresh_sender (nextId sm1) t) /\
  (MaxFloat sm1 a t).1.2 = [EvQueueStart (nextId sm1)].
Proof.
  intros Hv Hlt sm1.
  assert (Hn : senders sm1 !! a = None).
  { unfold sm1. rewrite cleanup_lookup, Hv. unfold expired. cbn [snd].
    rewrite (proj2 (Z.ltb_lt _ _) Hlt). reflexivity. }
  split; [exact Hn|]. split; [|split].
  - rewrite MaxFloat_eq, reserveAlloc_eq. cbv zeta. cbn [snd].
    unfold touched. rewrite Hn. cbn [fresh_sender pendingAmount].
    destruct (reserveAlloc_of (smgr sm1) (claimant sm1) (rm sm1) a) as [s' [r|e|]];
      cbn [snd res_map]; [f_equal; lia|reflexivity|reflexivity].
  - rewrite MaxFloat_eq. cbv zeta. cbn [fst]. unfold set_smgr. cbn [senders].
    rewrite ensureCache_lookup. unfold touched. rewrite Hn. reflexivity.
  - rewrite MaxFloat_eq. cbv zeta. cbn [fst snd]. rewrite ensureCache_events, Hn.
    reflexivity.
Qed.

Lemma step_events sm t o a :
  op_addr o = Some a ->
  exists tl, (step sm t o).2 = (ensureCache sm a t).2 ++ tl /\
             forall q, ~ In (EvQueueStart q) tl.
Proof.
  intros Ho.
  destruct o as [b tk|b y|b x|b|]; simpl in Ho; try discriminate; injection Ho as ->;
    simpl.
  - rewrite QueueTicket_eq. eexists. split; [reflexivity|]. intros q. not_in_literal.
  - rewrite AddFloat_eq. cbv zeta.
    destruct (pendingAmount (touched sm a t) <? y).
    + exists []. rewrite app_nil_r. split; [reflexivity|]. intros q [].
    + destruct (reserveAlloc_of (smgr sm) (claimant sm) (rm sm) a) as [s' [v|e|]];
        eexists; (split; [reflexivity|]); intros q; not_in_literal.
  - rewrite SubFloat_eq. eexists. split; [reflexivity|]. intros q. not_in_literal.
  - rewrite MaxFloat_eq. cbv zeta. exists []. rewrite app_nil_r.
    split; [reflexivity|]. intros q [].
Qed.

(** X8. A call on [a] starts a new queue exactly when [a] has no record,
    and then the one with handle [nextId]; on a sender with a record it
    keeps the record's queue and [done] channel and allocates no handle. *)
Theorem call_queue_start sm t o a :
  op_addr o = Some a ->
  (forall q, In (EvQueueStart q) (step sm t o).2 <->
             senders sm !! a = None /\ q = nextId sm) /\
  (forall rs, senders sm !! a = Some rs ->
     nextId (step sm t o).1 = nextId sm /\
     exists rs', senders (step sm t o).1 !! a = Some rs' /\
                 queue rs' = queue rs /\ done rs' = done rs).
Proof.
  intros Ho. destruct (step_events sm t o a Ho) as (tl & He & Htl).
  split.
  - intros q. rewrite He, ensureCache_events. split.
    + intros Hin. apply in_app_or in Hin as [Hin|Hin]; [|exfalso; exact (Htl q Hin)].
      revert Hin. destruct (senders sm !! a); simpl; [intros []|].
      intros [Hin|[]]. injection Hin as ->. auto.
    + intros [Hn ->]. rewrite Hn. apply in_or_app. left. left. reflexivity.
  - intros rs Hrs. rewrite step_nextId, Ho, Hrs. split; [reflexivity|].
    destruct (step_record sm t o a Ho) as (X & Hs & Hq & Hd).
    exists X. rewrite Hs, lookup_insert_eq. unfold touched in Hq, Hd.
    rewrite Hrs in Hq, Hd. split; [reflexivity|split; [exact Hq|exact Hd]].
Qed.

Lemma reserveAlloc_of_pure (s : SM) c r a :
  smgr_reads_pure s -> (reserveAlloc_of s c r a).1 = s.
Proof.
  intros Hp. destruct (Hp a c) as [H1 H2].
  unfold reserveAlloc_of, reserveAlloc. cbn [smgr claimant rm].
  destruct (GetSenderInfo s a) as [s1 [info err]] eqn:E.
  cbn in H1. subst s1.
  destruct err as [e|]; [reflexivity|].
  destruct (ClaimedReserve s a c) as [s2 [cl er]] eqn:E2.
  cbn in H2. subst s2.
  destruct (GetTranscoderPoolSize r =? 0); [reflexivity|].
  destruct info, cl; reflexivity.
Qed.

(** X9. With a sender manager whose reads do not change it (as the test
    stub), the max float a successful [AddFloat] signals to the sender's
    queue is what the next [MaxFloat] on that sender returns. *)
Theorem addFloat_signal_is_next_maxFloat sm a y t t' :
  smgr_reads_pure (smgr sm) ->
  (AddFloat sm a y t).2 = Ok tt ->
  exists rs mf,
    senders (AddFloat sm a y t).1.1 !! a = Some rs /\
    In (EvSignalMaxFloat (queue rs) mf) (AddFloat sm a y t).1.2 /\
    (MaxFloat (AddFloat sm a y t).1.1 a t').2 = Ok mf.
Proof.
  intros Hp. rewrite AddFloat_eq. cbv zeta.
  destruct (pendingAmount (touched sm a t) <? y); [discriminate|].
  pose proof (reserveAlloc_of_pure (smgr sm) (claimant sm) (rm sm) a Hp) as Hs.
  assert (Hc : claimant (ensureCache sm a t).1 = claimant sm /\
               rm (ensureCache sm a t).1 = rm sm)
    by (rewrite ensureCache_eq; split; reflexivity).
  destruct (reserveAlloc_of (smgr sm) (claimant sm) (rm sm) a) as [s' [v|e|]] eqn:Era;
    cbn [fst snd]; intros Hok; try discriminate.
  cbn [fst] in Hs. subst s'.
  set (rs' := set_pending (pendingAmount (touched sm a t) - y) (touched sm a t)).
  exists rs', (v - pendingAmount rs'). split; [|split].
  - unfold set_smgr, set_senders. cbn [senders]. apply lookup_insert_eq.
  - apply in_or_app. right. right. left. reflexivity.
  - rewrite MaxFloat_eq. cbv zeta. cbn [snd].
    unfold set_smgr, set_senders. cbn [smgr claimant rm].
    rewrite (proj1 Hc), (proj2 Hc), Era. cbn [snd res_map].
    rewrite touched_pending. unfold pending_at. cbn [senders].
    rewrite lookup_insert_eq. reflexivity.
Qed.

Lemma bigDiv_euclid x y :
  y <> 0 -> 0 <= x - y * bigDiv x y < Z.abs y.
Proof.
  intros Hy. unfold bigDiv. destruct (0 <? y) eqn:E.
  - apply Z.ltb_lt in E. rewrite Z.abs_eq by lia.
    pose proof (Z.mod_pos_bound x y E) as Hb. rewrite Z.mod_eq in Hb by lia. lia.
  - apply Z.ltb_ge in E. rewrite Z.abs_neq by lia.
    pose proof (Z.mod_pos_bound x (- y) ltac:(lia)) as Hb.
    rewrite Z.mod_eq in Hb by lia.
    replace (x - y * - (x / - y)) with (x - - y * (x / - y)) by ring. lia.
Qed.

(** X10. With both reads successful and a non-zero pool size,
    [reserveAlloc] is the sender's reserve divided by the pool size with
    [big.Int.Div]'s Euclidean rounding (the remainder lies in
    [[0, |pool|)]), minus the claimed amount. *)
Theorem reserveAlloc_share sm a s1 s2 i c :
  GetSenderInfo (smgr sm) a = (s1, (Some i, None)) ->
  ClaimedReserve s1 a (claimant sm) = (s2, (Some c, None)) ->
  GetTranscoderPoolSize (rm sm) <> 0 ->
  exists q, (reserveAlloc sm a).2 = Ok (q - c) /\
    0 <= Reserve i - GetTranscoderPoolSize (rm sm) * q
      < Z.abs (GetTranscoderPoolSize (rm sm)).
Proof.
  intros Hi Hc Hpool. unfold reserveAlloc. rewrite Hi. cbn iota beta.
  rewrite Hc. cbn iota beta.
  rewrite (proj2 (Z.eqb_neq _ _) Hpool).
  exists (bigDiv (Reserve i) (GetTranscoderPoolSize (rm sm))).
  split; [reflexivity|]. apply bigDiv_euclid. exact Hpool.
Qed.

End Extras.

(** * Concrete instances *)

(** The test scenarios S1 and S2 of the spec on the model. *)
Example scenario_S1 : (MaxFloat (fixture stub7 50) 7 0).2 = Ok (-90).
Proof. vm_compute. reflexivity. Qed.

Example scenario_S2 :
  (MaxFloat (SubFloat (SubFloat (fixture stub7 50) 7 5 0).1 7 5 1).1 7 2).2 = Ok (-100).
Proof. vm_compute. reflexivity. Qed.

Lemma run_pending_nonneg_witness :
  pending_nonneg (fixture stub7 50) /\
  pending_nonneg (run (fixture stub7 50)
                    [(0, OpSubFloat 7 5); (1, OpAddFloat 7 5); (2, OpMaxFloat 7);
                     (3700, OpCleanup)]).
Proof.
  assert (H0 : pending_nonneg (fixture stub7 50)).
  { intros a rs Ha. simpl in Ha. rewrite lookup_empty in Ha. discriminate. }
  split; [exact H0|].
  apply run_pending_nonneg; [exact H0|].
  repeat constructor; simpl; lia.
Defined.

Lemma float_algebra_witness :
  (forall rs, senders (fixture stub7 50) !! 7 = Some rs -> pendingAmount rs = 0) /\
  (MaxFloat (run (fixture stub7 50)
               [(0, OpSubFloat 7 5); (1, OpSubFloat 7 5); (2, OpAddFloat 7 3)]) 7 3).2 =
  res_map (fun r => r - (10 - 3))
    (reserveAlloc (run (fixture stub7 50)
                     [(0, OpSubFloat 7 5); (1, OpSubFloat 7 5); (2, OpAddFloat 7 3)]) 7).2.
Proof.
  assert (Hz : forall rs, senders (fixture stub7 50) !! 7 = Some rs -> pendingAmount rs = 0).
  { intros rs Hrs. simpl in Hrs. rewrite lookup_empty in Hrs. discriminate. }
  split; [exact Hz|].
  apply (float_algebra (fixture stub7 50) 7
           [(0, OpSubFloat 7 5); (1, OpSubFloat 7 5); (2, OpAddFloat 7 3)] 3 Hz).
  - repeat constructor.
  - intros k. destruct k as [|[|[|[|k]]]]; reflexivity || (vm_compute; discriminate).
Defined.

Lemma clear_err_count_witness :
  (AddFloat (SubFloat (fixture stub7 50) 7 5 0).1 7 5 1).2 <> Err errInsufficientPending /\
  In (EvClearErrCount 7) (AddFloat (SubFloat (fixture stub7 50) 7 5 0).1 7 5 1).1.2.
Proof.
  assert (Hn : (AddFloat (SubFloat (fixture stub7 50) 7 5 0).1 7 5 1).2
               <> Err errInsufficientPending) by (vm_compute; discriminate).
  split; [exact Hn|].
  apply (proj1 (clear_err_count (SubFloat (fixture stub7 50) 7 5 0).1 7 5 0 1)).
  exact Hn.
Defined.

(** C3: on a known sender, a failing [AddFloat] still changes the monitor
    (its [lastAccess] moves from 0 to 5). *)
Lemma addFloat_guard_state_changes :
  (AddFloat (SubFloat (fixture stub7 50) 7 5 0).1 7 10 5).2 = Err errInsufficientPending /\
  (AddFloat (SubFloat (fixture stub7 50) 7 5 0).1 7 10 5).1.1
    <> (SubFloat (fixture stub7 50) 7 5 0).1.
Proof.
  split; [vm_compute; reflexivity|].
  intros Heq. apply (f_equal (fun sm => option_map lastAccess (senders sm !! 7))) in Heq.
  vm_compute in Heq. discriminate.
Qed.

Lemma addFloat_guard_witness :
  pending_at (SubFloat (fixture stub7 50) 7 5 0).1 7 < 10 /\
  (AddFloat (SubFloat (fixture stub7 50) 7 5 0).1 7 10 5).2 = Err errInsufficientPending.
Proof.
  assert (Hp : pending_at (SubFloat (fixture stub7 50) 7 5 0).1 7 < 10)
    by (vm_compute; reflexivity).
  split; [exact Hp|].
  exact (proj1 (addFloat_guard (SubFloat (fixture stub7 50) 7 5 0).1 7 10 5 Hp)).
Defined.

(** C7: with pool size 0 a failing [GetSenderInfo] is still returned. *)
Lemma pool_size_zero_info_error :
  GetTranscoderPoolSize (rm (fixture stub7_info_err 0)) = 0 /\
  (reserveAlloc (fixture stub7_info_err 0) 7).2 = Err "GetSenderInfo error" /\
  (MaxFloat (fixture stub7_info_err 0) 7 0).2 = Err "GetSenderInfo error".
Proof. vm_compute. repeat split. Qed.

Lemma pool_size_zero_witness :
  GetTranscoderPoolSize (rm (fixture stub7 0)) = 0 /\
  (GetSenderInfo (smgr (fixture stub7 0)) 7).2.2 = None /\
  (MaxFloat (SubFloat (fixture stub7 0) 7 5 0).1 7 1).2
    = Ok (- pending_at (SubFloat (fixture stub7 0) 7 5 0).1 7) /\
  GetTranscoderPoolSize (rm (fixture stub7_info_err 0)) = 0 /\
  (GetSenderInfo (smgr (fixture stub7_info_err 0)) 7).2.2 = Some "GetSenderInfo error" /\
  (MaxFloat (fixture stub7_info_err 0) 7 0).2 = Err "GetSenderInfo error".
Proof.
  assert (Hp1 : GetTranscoderPoolSize (rm (SubFloat (fixture stub7 0) 7 5 0).1) = 0)
    by (vm_compute; reflexivity).
  assert (Hi1 : (GetSenderInfo (smgr (SubFloat (fixture stub7 0) 7 5 0).1) 7).2.2 = None)
    by (vm_compute; reflexivity).
  assert (Hp2 : GetTranscoderPoolSize (rm (fixture stub7_info_err 0)) = 0)
    by reflexivity.
  assert (Hi2 : (GetSenderInfo (smgr (fixture stub7_info_err 0)) 7).2.2
                = Some "GetSenderInfo error") by reflexivity.
  split; [reflexivity|]. split; [reflexivity|]. split.
  - exact (proj2 (proj1 (pool_size_zero (SubFloat (fixture stub7 0) 7 5 0).1 7 1 Hp1) Hi1)).
  - split; [exact Hp2|]. split; [exact Hi2|].
    exact (proj2 (proj2 (pool_size_zero (fixture stub7_info_err 0) 7 0 Hp2)
                    "GetSenderInfo error" Hi2)).
Defined.

Lemma addFloat_read_error_keeps_decrease_witness :
  10 <= pending_at (SubFloat (fixture stub7_info_err 50) 7 10 0).1 7 /\
  (AddFloat (SubFloat (fixture stub7_info_err 50) 7 10 0).1 7 10 1).2
    = Err "GetSenderInfo error" /\
  pending_at (AddFloat (SubFloat (fixture stub7_info_err 50) 7 10 0).1 7 10 1).1.1 7 = 0.
Proof.
  assert (Hle : 10 <= pending_at (SubFloat (fixture stub7_info_err 50) 7 10 0).1 7)
    by (vm_compute; discriminate).
  assert (Hra : (reserveAlloc (SubFloat (fixture stub7_info_err 50) 7 10 0).1 7).2
                = Err "GetSenderInfo error") by (vm_compute; reflexivity).
  destruct (addFloat_read_error_keeps_decrease
              (SubFloat (fixture stub7_info_err 50) 7 10 0).1 7 10 1
              "GetSenderInfo error" Hle Hra)
    as [He Hp].
  split; [exact Hle|]. split; [exact He|].
  rewrite Hp. vm_compute. reflexivity.
Defined.

Lemma addFloat_failure_creates_record_witness :
  senders (fixture stub7 50) !! 7 = None /\
  senders (AddFloat (fixture stub7 50) 7 10 5).1.1 !! 7 = Some (fresh_sender 0 5).
Proof.
  assert (Hn : senders (fixture stub7 50) !! 7 = None) by reflexivity.
  split; [exact Hn|].
  exact (proj1 (proj2 (addFloat_failure_creates_record (fixture stub7 50) 7 10 5
                         Hn ltac:(lia)))).
Defined.

Lemma cleanup_ttl_witness :
  op_addr (OpMaxFloat 7) = Some 7 /\
  exists rs, senders (cleanup (run (step (MaxFloat (fixture stub7 50) 7 0).1.1
                                         3000 (OpMaxFloat 7)).1
                                   [(3100, OpSubFloat 7 1)]) 6600).1 !! 7 = Some rs.
Proof.
  split; [reflexivity|].
  apply (proj2 (proj2 (proj2 (proj2 (cleanup_ttl (MaxFloat (fixture stub7 50) 7 0).1.1
                                                    6600)))) 3000 (OpMaxFloat 7) 7
           [(3100, OpSubFloat 7 1)] 6600).
  - reflexivity.
  - repeat constructor; simpl; [lia|discriminate].
  - vm_compute. discriminate.
Defined.

Lemma cached_value_on_non_eviction_witness :
  (MaxFloat caching_fixture 7 0).2 <> Err errUnknownSender /\
  (MaxFloat (chain_update (cleanup (MaxFloat caching_fixture 7 0).1.1 3600).1 7
               (info_reserve 1000)) 7 3601).2 = Ok (-90).
Proof.
  assert (Hok : (MaxFloat caching_fixture 7 0).2 <> Err errUnknownSender)
    by (vm_compute; discriminate).
  split; [exact Hok|].
  assert (Hwin : 3600 - 0 <= ttl caching_fixture) by (vm_compute; discriminate).
  rewrite (cached_value_on_non_eviction caching_fixture 7 0 3600 3601
             (info_reserve 1000) Hok Hwin).
  vm_compute. reflexivity.
Defined.

(** C2: an error of [ClaimedReserve] is not returned. With pool size 0
    [MaxFloat] returns 0 and a following [AddFloat] succeeds; with pool
    size 50 and an amount returned alongside the error, the amount is
    used; with a nil amount the code dereferences it. *)
Lemma claimedReserve_error_not_returned :
  (MaxFloat (fixture stub7_claimed_nil 0) 7 0).2 = Ok 0 /\
  (AddFloat (SubFloat (fixture stub7_claimed_nil 0) 7 10 0).1 7 10 1).2 = Ok tt /\
  (MaxFloat (fixture stub7_claimed_err 50) 7 0).2 = Ok (-90) /\
  (MaxFloat (fixture stub7_claimed_nil 50) 7 0).2 = Panic.
Proof. vm_compute. repeat split. Qed.

(** ** Witnesses of the further properties *)

Lemma calls_on_others_keep_record_witness :
  Forall (fun p => exists a, op_addr p.2 = Some a /\ a <> 7)
    [(1, OpSubFloat 8 5); (2, OpMaxFloat 8); (3, OpAddFloat 8 5)] /\
  senders (run (SubFloat (fixture stub7 50) 7 5 0).1
             [(1, OpSubFloat 8 5); (2, OpMaxFloat 8); (3, OpAddFloat 8 5)]) !! 7
  = Some {| pendingAmount := 5; queue := 0; done := 0; lastAccess := 0 |}.
Proof.
  assert (Hf : Forall (fun p => exists a, op_addr p.2 = Some a /\ a <> 7)
                 [(1, OpSubFloat 8 5); (2, OpMaxFloat 8); (3, OpAddFloat 8 5)]).
  { repeat (apply List.Forall_cons; [exists 8; split; [reflexivity|lia]|]).
    apply List.Forall_nil. }
  split; [exact Hf|].
  rewrite (calls_on_others_keep_record (SubFloat (fixture stub7 50) 7 5 0).1 7 _ Hf).
  vm_compute. reflexivity.
Defined.

Lemma pending_changed_only_by_float_ops_witness :
  Forall (fun p => p.2 <> OpCleanup /\ ~ float_op_on 7 p.2)
    [(1, OpMaxFloat 7); (2, OpSubFloat 8 3);
     (3, OpQueueTicket 7 {| SenderNonce := 1; FaceValue := 10 |})] /\
  pending_at (run (SubFloat (fixture stub7 50) 7 5 0).1
                [(1, OpMaxFloat 7); (2, OpSubFloat 8 3);
                 (3, OpQueueTicket 7 {| SenderNonce := 1; FaceValue := 10 |})]) 7 = 5.
Proof.
  assert (Hf : Forall (fun p => p.2 <> OpCleanup /\ ~ float_op_on 7 p.2)
                 [(1, OpMaxFloat 7); (2, OpSubFloat 8 3);
                  (3, OpQueueTicket 7 {| SenderNonce := 1; FaceValue := 10 |})]).
  { repeat (apply List.Forall_cons;
            [split; [discriminate|cbn; intros Hc; first [exact Hc|lia]]|]).
    apply List.Forall_nil. }
  split; [exact Hf|].
  rewrite (pending_changed_only_by_float_ops (SubFloat (fixture stub7 50) 7 5 0).1 7 _ Hf).
  vm_compute. reflexivity.
Defined.

Lemma subFloat_addFloat_roundtrip_witness :
  0 <= pending_at (SubFloat (fixture stub7 50) 7 4 0).1 7 /\
  pending_at (AddFloat (SubFloat (SubFloat (fixture stub7 50) 7 4 0).1 7 10 1).1
                7 10 2).1.1 7 = 4 /\
  (AddFloat (SubFloat (SubFloat (fixture stub7 50) 7 4 0).1 7 10 1).1 7 10 2).2
  = Ok tt.
Proof.
  assert (Hp : 0 <= pending_at (SubFloat (fixture stub7 50) 7 4 0).1 7)
    by (vm_compute; discriminate).
  destruct (subFloat_addFloat_roundtrip (SubFloat (fixture stub7 50) 7 4 0).1 7 10 1 2 Hp)
    as [H1 H2].
  split; [exact Hp|]. split.
  - rewrite H1. vm_compute. reflexivity.
  - rewrite H2. vm_compute. reflexivity.
Defined.

Lemma eviction_forgets_pending_witness :
  senders (SubFloat (fixture stub7 50) 7 10 0).1 !! 7
    = Some {| pendingAmount := 10; queue := 0; done := 0; lastAccess := 0 |} /\
  ttl (SubFloat (fixture stub7 50) 7 10 0).1 < 3601 - 0 /\
  (MaxFloat (cleanup (SubFloat (fixture stub7 50) 7 10 0).1 3601).1 7 3602).2
  = (reserveAlloc (cleanup (SubFloat (fixture stub7 50) 7 10 0).1 3601).1 7).2.
Proof.
  assert (Hv : senders (SubFloat (fixture stub7 50) 7 10 0).1 !! 7
               = Some {| pendingAmount := 10; queue := 0; done := 0; lastAccess := 0 |})
    by (vm_compute; reflexivity).
  assert (Hlt : ttl (SubFloat (fixture stub7 50) 7 10 0).1 < 3601 - 0)
    by (vm_compute; reflexivity).
  split; [exact Hv|]. split; [exact Hlt|].
  exact (proj1 (proj2 (eviction_forgets_pending _ 7 _ 3601 3602 Hv Hlt))).
Defined.

Lemma call_queue_start_witness :
  op_addr (OpSubFloat 7 5) = Some 7 /\
  In (EvQueueStart 0%nat) (step (fixture stub7 50) 0 (OpSubFloat 7 5)).2 /\
  nextId (step (SubFloat (fixture stub7 50) 7 5 0).1 1 (OpSubFloat 7 5)).1 = 1%nat.
Proof.
  assert (Ho : op_addr (OpSubFloat 7 5) = Some 7) by reflexivity.
  split; [exact Ho|]. split.
  - apply (proj1 (call_queue_start (fixture stub7 50) 0 (OpSubFloat 7 5) 7 Ho) 0%nat).
    split; reflexivity.
  - assert (Hrs : senders (SubFloat (fixture stub7 50) 7 5 0).1 !! 7
                  = Some {| pendingAmount := 5; queue := 0; done := 0; lastAccess := 0 |})
      by (vm_compute; reflexivity).
    rewrite (proj1 (proj2 (call_queue_start (SubFloat (fixture stub7 50) 7 5 0).1 1
                             (OpSubFloat 7 5) 7 Ho) _ Hrs)).
    vm_compute. reflexivity.
Defined.

Lemma addFloat_signal_is_next_maxFloat_witness :
  smgr_reads_pure (smgr (SubFloat (fixture stub7 50) 7 10 0).1) /\
  (AddFloat (SubFloat (fixture stub7 50) 7 10 0).1 7 4 1).2 = Ok tt /\
  exists rs mf,
    senders (AddFloat (SubFloat (fixture stub7 50) 7 10 0).1 7 4 1).1.1 !! 7 = Some rs /\
    In (EvSignalMaxFloat (queue rs) mf)
       (AddFloat (SubFloat (fixture stub7 50) 7 10 0).1 7 4 1).1.2 /\
    (MaxFloat (AddFloat (SubFloat (fixture stub7 50) 7 10 0).1 7 4 1).1.1 7 5).2 = Ok mf.
Proof.
  assert (Hp : smgr_reads_pure (smgr (SubFloat (fixture stub7 50) 7 10 0).1))
    by (intros a c; split; reflexivity).
  assert (Hok : (AddFloat (SubFloat (fixture stub7 50) 7 10 0).1 7 4 1).2 = Ok tt)
    by (vm_compute; reflexivity).
  split; [exact Hp|]. split; [exact Hok|].
  exact (addFloat_signal_is_next_maxFloat _ 7 4 1 5 Hp Hok).
Defined.

Lemma reserveAlloc_share_witness :
  GetSenderInfo (smgr (fixture stub7 3)) 7 = (stub7, (Some (info_reserve 500), None)) /\
  ClaimedReserve stub7 7 (claimant (fixture stub7 3)) = (stub7, (Some 100, None)) /\
  GetTranscoderPoolSize (rm (fixture stub7 3)) <> 0 /\
  exists q, (reserveAlloc (fixture stub7 3) 7).2 = Ok (q - 100) /\ 0 <= 500 - 3 * q < 3.
Proof.
  assert (Hi : GetSenderInfo (smgr (fixture stub7 3)) 7
               = (stub7, (Some (info_reserve 500), None))) by reflexivity.
  assert (Hc : ClaimedReserve stub7 7 (claimant (fixture stub7 3))
               = (stub7, (Some 100, None))) by reflexivity.
  assert (Hpool : GetTranscoderPoolSize (rm (fixture stub7 3)) <> 0) by discriminate.
  split; [exact Hi|]. split; [exact Hc|]. split; [exact Hpool|].
  exact (reserveAlloc_share (fixture stub7 3) 7 stub7 stub7 (info_reserve 500) 100
           Hi Hc Hpool).
Defined.
